(** * Request building in the elastic client: SearchRequest and IndexService

    A shallow embedding of [SearchRequest] (the descriptor handed to
    MultiSearch) and of [IndexService] (the document indexing call), with the
    properties of their wire representation. *)

From Stdlib Require Import ZArith String Ascii List DecimalString DecimalZ
  DecimalPos.
From stdpp Require Import base option list strings gmap sorting.

Local Open Scope string_scope.
Local Open Scope list_scope.

(** ** Go values shared by both builders *)

(** A Go slice is either [nil] or a sequence of elements; only [Routings]
    tells the two apart. *)
Definition slice (A : Type) : Type := option (list A).

(** The value a variadic parameter [p ...T] receives from a call that lists
    its arguments one by one: [nil] when there is none, a fresh slice
    otherwise. *)
Definition variadic {A : Type} (args : list A) : slice A :=
  match args with
  | [] => None
  | _ :: _ => Some args
  end.

Module GoStrings.

(** [strings.Join]: the elements, with [sep] between two neighbours. *)
Definition Join (elems : list string) (sep : string) : string :=
  match elems with
  | [] => ""
  | e :: rest => foldl (fun b s => b +:+ sep +:+ s) e rest
  end.

End GoStrings.

(** ** SearchRequest *)

Module SearchRequest.

(** What a header entry holds: [h[k] = someString] or [h[k] = someSlice]. *)
Inductive HeaderValue : Type :=
| HString (s : string)
| HStrings (l : list string).

Section Descriptor.

(** The dynamic values a caller may pass as a query body, and the
    [*SearchSource] builder with its [Source()] rendering. *)
Context {Any SearchSource : Type}.

Inductive iface : Type :=
| Nil
| SearchSourcePtr (v : SearchSource)
| Other (a : Any).

Variable SearchSource_Source : SearchSource -> iface.

Record SearchRequest : Type := MkSearchRequest {
  searchType : string;
  indices : list string;
  types : list string;
  routing : option string;
  preference : option string;
  source : iface
}.

Definition NewSearchRequest : SearchRequest :=
  {| searchType := ""; indices := []; types := [];
     routing := None; preference := None; source := Nil |}.

(** The setters return their receiver: here, the descriptor after the call. *)

Definition SearchType (searchType' : string) (r : SearchRequest) : SearchRequest :=
  let 'MkSearchRequest _ i t ro p s := r in MkSearchRequest searchType' i t ro p s.

Definition SearchTypeDfsQueryThenFetch := SearchType "dfs_query_then_fetch".
Definition SearchTypeDfsQueryAndFetch := SearchType "dfs_query_and_fetch".
Definition SearchTypeQueryThenFetch := SearchType "query_then_fetch".
Definition SearchTypeQueryAndFetch := SearchType "query_and_fetch".
Definition SearchTypeScan := SearchType "scan".
Definition SearchTypeCount := SearchType "count".

Definition Index (index : string) (r : SearchRequest) : SearchRequest :=
  let 'MkSearchRequest st i t ro p s := r in MkSearchRequest st (i ++ [index]) t ro p s.

Definition Indices (indices' : list string) (r : SearchRequest) : SearchRequest :=
  let 'MkSearchRequest st i t ro p s := r in MkSearchRequest st (i ++ indices') t ro p s.

Definition HasIndices (r : SearchRequest) : bool :=
  bool_decide (0 < List.length (indices r))%nat.

Definition Type_ (typ : string) (r : SearchRequest) : SearchRequest :=
  let 'MkSearchRequest st i t ro p s := r in MkSearchRequest st i (t ++ [typ]) ro p s.

Definition Types (types' : list string) (r : SearchRequest) : SearchRequest :=
  let 'MkSearchRequest st i t ro p s := r in MkSearchRequest st i (t ++ types') ro p s.

Definition Routing (routing' : string) (r : SearchRequest) : SearchRequest :=
  let 'MkSearchRequest st i t _ p s := r in MkSearchRequest st i t (Some routing') p s.

Definition Routings (routings : slice string) (r : SearchRequest) : SearchRequest :=
  let 'MkSearchRequest st i t _ p s := r in
  match routings with
  | Some elems =>
      let routings' := GoStrings.Join elems "," in
      MkSearchRequest st i t (Some routings') p s
  | None => MkSearchRequest st i t None p s
  end.

Definition Preference (preference' : string) (r : SearchRequest) : SearchRequest :=
  let 'MkSearchRequest st i t ro _ s := r in MkSearchRequest st i t ro (Some preference') s.

Definition Source (source' : iface) (r : SearchRequest) : SearchRequest :=
  let 'MkSearchRequest st i t ro p _ := r in
  match source' with
  | SearchSourcePtr v => MkSearchRequest st i t ro p (SearchSource_Source v)
  | _ => MkSearchRequest st i t ro p source'
  end.

(** [header] and [body] have a pointer receiver too: they return their result
    together with the descriptor as they leave it. *)

Definition header (r : SearchRequest) : gmap string HeaderValue * SearchRequest :=
  let h : gmap string HeaderValue := ∅ in
  let h := if decide (searchType r ≠ "")
           then <["search_type" := HString (searchType r)]> h else h in
  let h := match indices r with
           | [] => h
           | [i0] => <["index" := HString i0]> h
           | _ => <["indices" := HStrings (indices r)]> h
           end in
  let h := match types r with
           | [] => h
           | [t0] => <["types" := HString t0]> h
           | _ => <["type" := HStrings (types r)]> h
           end in
  let h := match routing r with
           | Some ro => if decide (ro ≠ "") then <["routing" := HString ro]> h else h
           | None => h
           end in
  let h := match preference r with
           | Some p => if decide (p ≠ "") then <["preference" := HString p]> h else h
           | None => h
           end in
  (h, r).

Definition body (r : SearchRequest) : iface * SearchRequest :=
  (source r, r).

End Descriptor.

Arguments SearchRequest : clear implicits.
Arguments iface : clear implicits.

End SearchRequest.

(** ** Go library functions used by IndexService *)

(** Modelled from the spec: the values of Go's [error] that [Do] can return,
    by their origin: a path segment that could not be encoded, a failure of
    the transport, a status outside the successful range, a response that does
    not decode. [Do] only passes them on. *)
Inductive error : Type :=
| PathExpansionError (detail : string)
| TransportError (detail : string)
| HTTPStatusError (status : Z) (body : string)
| DecodeError (detail : string).

Module fmt.

(** [fmt.Sprintf("%d", v)] for an [int64], which is a [Z] from [-2^63] up to
    [2^63 - 1]: the decimal digits, with a minus sign before a negative
    number. *)
Definition Sprintf_d (v : Z) : string := NilZero.string_of_int (Z.to_int v).

End fmt.

(** Go's [net/url], as its documentation has it: query escaping, and
    [url.Values] with [Encode] writing the keys in sorted order. *)
Module url.

Definition upperhex : string := "0123456789ABCDEF".

Definition hexdigit (n : N) : ascii :=
  default "0"%char (String.get (N.to_nat n) upperhex).

(** [shouldEscape(c, encodeQueryComponent)]: letters, digits and the four
    marks [-], [_], [.], [~] stay; every other byte is escaped. *)
Definition shouldEscape (c : ascii) : bool :=
  let n := N_of_ascii c in
  if ((97 <=? n) && (n <=? 122) || (65 <=? n) && (n <=? 90)
      || (48 <=? n) && (n <=? 57))%N
  then false
  else if ((n =? 45) || (n =? 95) || (n =? 46) || (n =? 126))%N
  then false
  else true.

(** [url.QueryEscape]: a space becomes [+], any other escaped byte becomes
    [%XX] with upper-case digits. *)
Fixpoint QueryEscape (s : string) : string :=
  match s with
  | EmptyString => EmptyString
  | String c s' =>
      if shouldEscape c then
        if Ascii.eqb c " "%char then String "+"%char (QueryEscape s')
        else
          let n := N_of_ascii c in
          String "%"%char
            (String (hexdigit (N.shiftr n 4))
               (String (hexdigit (N.land n 15)) (QueryEscape s')))
      else String c (QueryEscape s')
  end.

(** [url.Values] is [map[string][]string]. *)
Abbreviation Values := (gmap string (list string)).

(** [v.Set(key, value)] replaces whatever [key] held. *)
Definition Set_ (key value : string) (v : Values) : Values :=
  <[key := [value]]> v.

(** [v.Encode()]: the keys in sorted order; every value of a key written as
    [key=value], both escaped, with [&] before all but the first. *)
Definition Encode (v : Values) : string :=
  let keys := merge_sort String.le (map_to_list v).*1 in
  foldl (fun buf k =>
           let vs := default [] (v !! k) in
           let keyEscaped := QueryEscape k in
           foldl (fun buf value =>
                    let buf := if decide (0 < String.length buf)%nat
                               then buf +:+ "&" else buf in
                    buf +:+ keyEscaped +:+ "=" +:+ QueryEscape value)
                 buf vs)
        "" keys.

(** [Set] when there is a value to set. *)
Definition set_opt (k : string) (o : option string) (v : Values) : Values :=
  match o with
  | Some value => Set_ k value v
  | None => v
  end.

(** The query string of parameters given in order, one value each. *)
Definition component (kv : string * string) : string :=
  QueryEscape kv.1 +:+ "=" +:+ QueryEscape kv.2.

Definition encoded (l : list (string * string)) : string :=
  GoStrings.Join (map component l) "&".

(** A parameter as [Values] holds it, and what the loop of [Encode] writes
    for it. *)
Definition singly (kv : string * string) : string * list string :=
  (kv.1, [kv.2]).

Definition write (buf : string) (kv : string * string) : string :=
  (if decide (0 < String.length buf)%nat then buf +:+ "&" else buf)
  +:+ component kv.

(** The bytes [QueryEscape] can write: those it leaves alone, [+] for a
    space and [%] before two digits. *)
Definition escaped_byte (c : ascii) : bool :=
  negb (shouldEscape c) || Ascii.eqb c "+"%char || Ascii.eqb c "%"%char.

End url.

Module uritemplates.

Section Expand.

(** The percent-encoding of one template variable; [None] when the value
    cannot be safely encoded. *)
Variable pctEncode : string -> option string.

(** Modelled from the spec: the expansion behind [uritemplates.Expand]. The
    template is read from left to right; [name] holds the variable name read
    so far while inside braces; a variable is replaced by its encoded value,
    and the expansion fails when that value cannot be encoded. *)
Fixpoint expand (expansions : gmap string string) (name : option string)
    (template : string) : string + error :=
  match template with
  | EmptyString =>
      match name with
      | None => inl ""
      | Some n => inr (PathExpansionError n)
      end
  | String c rest =>
      match name with
      | None =>
          if Ascii.eqb c "{"%char then expand expansions (Some "") rest
          else match expand expansions None rest with
               | inl out => inl (String c out)
               | inr err => inr err
               end
      | Some n =>
          if Ascii.eqb c "}"%char then
            match pctEncode (default "" (expansions !! n)) with
            | None => inr (PathExpansionError n)
            | Some v =>
                match expand expansions None rest with
                | inl out => inl (v +:+ out)
                | inr err => inr err
                end
            end
          else expand expansions (Some (n +:+ String c "")) rest
      end
  end.

(** Modelled from the spec: [uritemplates.Expand], which lives in the
    [uritemplates] package. Every variable is percent-encoded on its own and
    substituted for its [{name}] in the template; the expansion fails when a
    variable the template needs cannot be encoded. *)
Definition Expand (path : string) (expansions : gmap string string)
  : string + error :=
  expand expansions None path.

End Expand.

(** An encoder that never fails: every byte outside the unreserved set is
    written as [%XX]. *)
Fixpoint pctEscape (s : string) : string :=
  match s with
  | EmptyString => EmptyString
  | String c s' =>
      if url.shouldEscape c then
        let n := N_of_ascii c in
        String "%"%char
          (String (url.hexdigit (N.shiftr n 4))
             (String (url.hexdigit (N.land n 15)) (pctEscape s')))
      else String c (pctEscape s')
  end.

End uritemplates.

(** ** IndexService *)

Module IndexResult.

(** [IndexResult], as decoded from the response. *)
Record IndexResult : Type := MkIndexResult {
  Index : string;
  Type_ : string;
  Id : string;
  Version : Z;
  Created : bool
}.

End IndexResult.

Module IndexService.

Section Service.

(** [Json] are the non-nil values of [interface{}] a caller passes as a body;
    [Request] and [Response] are the client's requests and the responses of
    its transport. *)
Context {Json Request Response : Type}.

Record IndexService : Type := MkIndexService {
  index : string;
  _type : string;
  id : string;
  routing : string;
  parent : string;
  opType : string;
  refresh : option bool;
  version : option Z;
  versionType : string;
  timestamp : string;
  ttl : string;
  timeout : string;
  bodyString : string;
  bodyJson : option Json;
  pretty : bool;
  debug : bool
}.

(** The [client] field of the Go struct is the receiver of the calls listed
    in [Event] below; the builder itself only holds the parameters. *)
Definition NewIndexService : IndexService :=
  {| index := ""; _type := ""; id := ""; routing := ""; parent := "";
     opType := ""; refresh := None; version := None; versionType := "";
     timestamp := ""; ttl := ""; timeout := ""; bodyString := "";
     bodyJson := None; pretty := false; debug := false |}.

Definition Index (name : string) (b : IndexService) : IndexService :=
  let 'MkIndexService _ ty d ro pa ot rf ve vt ts tl to bs bj pr db := b in
  MkIndexService name ty d ro pa ot rf ve vt ts tl to bs bj pr db.

Definition Type_ (_type' : string) (b : IndexService) : IndexService :=
  let 'MkIndexService i _ d ro pa ot rf ve vt ts tl to bs bj pr db := b in
  MkIndexService i _type' d ro pa ot rf ve vt ts tl to bs bj pr db.

Definition Id (id' : string) (b : IndexService) : IndexService :=
  let 'MkIndexService i ty _ ro pa ot rf ve vt ts tl to bs bj pr db := b in
  MkIndexService i ty id' ro pa ot rf ve vt ts tl to bs bj pr db.

Definition Routing (routing' : string) (b : IndexService) : IndexService :=
  let 'MkIndexService i ty d _ pa ot rf ve vt ts tl to bs bj pr db := b in
  MkIndexService i ty d routing' pa ot rf ve vt ts tl to bs bj pr db.

Definition Parent (parent' : string) (b : IndexService) : IndexService :=
  let 'MkIndexService i ty d ro _ ot rf ve vt ts tl to bs bj pr db := b in
  MkIndexService i ty d ro parent' ot rf ve vt ts tl to bs bj pr db.

Definition OpType (opType' : string) (b : IndexService) : IndexService :=
  let 'MkIndexService i ty d ro pa _ rf ve vt ts tl to bs bj pr db := b in
  MkIndexService i ty d ro pa opType' rf ve vt ts tl to bs bj pr db.

Definition Refresh (refresh' : bool) (b : IndexService) : IndexService :=
  let 'MkIndexService i ty d ro pa ot _ ve vt ts tl to bs bj pr db := b in
  MkIndexService i ty d ro pa ot (Some refresh') ve vt ts tl to bs bj pr db.

Definition Version (version' : Z) (b : IndexService) : IndexService :=
  let 'MkIndexService i ty d ro pa ot rf _ vt ts tl to bs bj pr db := b in
  MkIndexService i ty d ro pa ot rf (Some version') vt ts tl to bs bj pr db.

Definition VersionType (versionType' : string) (b : IndexService) : IndexService :=
  let 'MkIndexService i ty d ro pa ot rf ve _ ts tl to bs bj pr db := b in
  MkIndexService i ty d ro pa ot rf ve versionType' ts tl to bs bj pr db.

Definition Timestamp (timestamp' : string) (b : IndexService) : IndexService :=
  let 'MkIndexService i ty d ro pa ot rf ve vt _ tl to bs bj pr db := b in
  MkIndexService i ty d ro pa ot rf ve vt timestamp' tl to bs bj pr db.

Definition TTL (ttl' : string) (b : IndexService) : IndexService :=
  let 'MkIndexService i ty d ro pa ot rf ve vt ts _ to bs bj pr db := b in
  MkIndexService i ty d ro pa ot rf ve vt ts ttl' to bs bj pr db.

Definition Timeout (timeout' : string) (b : IndexService) : IndexService :=
  let 'MkIndexService i ty d ro pa ot rf ve vt ts tl _ bs bj pr db := b in
  MkIndexService i ty d ro pa ot rf ve vt ts tl timeout' bs bj pr db.

Definition BodyString (body : string) (b : IndexService) : IndexService :=
  let 'MkIndexService i ty d ro pa ot rf ve vt ts tl to _ bj pr db := b in
  MkIndexService i ty d ro pa ot rf ve vt ts tl to body bj pr db.

Definition BodyJson (json : option Json) (b : IndexService) : IndexService :=
  let 'MkIndexService i ty d ro pa ot rf ve vt ts tl to bs _ pr db := b in
  MkIndexService i ty d ro pa ot rf ve vt ts tl to bs json pr db.

Definition Pretty (pretty' : bool) (b : IndexService) : IndexService :=
  let 'MkIndexService i ty d ro pa ot rf ve vt ts tl to bs bj _ db := b in
  MkIndexService i ty d ro pa ot rf ve vt ts tl to bs bj pretty' db.

Definition Debug (debug' : bool) (b : IndexService) : IndexService :=
  let 'MkIndexService i ty d ro pa ot rf ve vt ts tl to bs bj pr _ := b in
  MkIndexService i ty d ro pa ot rf ve vt ts tl to bs bj pr debug'.

(** What [Do] asks of its client, of the response and of the JSON decoder,
    each with the type of its answer. *)
Inductive Event : Type -> Type :=
| NewRequest (method urls : string) : Event (Request + error)
| SetBodyJson (req : Request) (json : Json) : Event unit
| SetBodyString (req : Request) (body : string) : Event unit
| dumpRequest (req : Request) : Event unit
| HttpDo (req : Request) : Event (Response + error)
| checkResponse (res : Response) : Event (option error)
| dumpResponse (res : Response) : Event unit
| Decode (res : Response) : Event (IndexResult.IndexResult + error)
| BodyClose (res : Response) : Event unit.

(** A computation that makes such calls one after the other and returns. *)
Inductive Prog (A : Type) : Type :=
| Ret (a : A)
| Vis {X : Type} (e : Event X) (k : X -> Prog A).

Arguments Ret {A} a.
Arguments Vis {A X} e k.

Fixpoint bind {A B : Type} (p : Prog A) (f : A -> Prog B) : Prog B :=
  match p with
  | Ret a => f a
  | Vis e k => Vis e (fun x => bind (k x) f)
  end.

Definition call {X : Type} (e : Event X) : Prog X := Vis e Ret.

Notation "x <- p ;; q" := (bind p (fun x => q))
  (at level 100, p at next level, right associativity).
Notation "p ;; q" := (bind p (fun _ => q))
  (at level 100, right associativity).

Definition when (c : bool) (p : Prog unit) : Prog unit :=
  if c then p else Ret tt.

Variable pctEncode : string -> option string.

(** [// Build url]: the method and the template [Do] chooses. *)
Definition target (b : IndexService) : string * string :=
  if decide (id b ≠ "") then ("PUT", "/{index}/{type}/{id}")
  else ("POST", "/{index}/{type}/").

(** [// Parameters]: the [url.Values] of [Do]. *)
Definition params (b : IndexService) : url.Values :=
  let params : url.Values := ∅ in
  let params := if pretty b then url.Set_ "pretty" "true" params else params in
  let params := if decide (routing b ≠ "")
                then url.Set_ "routing" (routing b) params else params in
  let params := if decide (parent b ≠ "")
                then url.Set_ "parent" (parent b) params else params in
  let params := if decide (opType b ≠ "")
                then url.Set_ "op_type" (opType b) params else params in
  let params := match refresh b with
                | Some true => url.Set_ "refresh" "true" params
                | _ => params
                end in
  let params := match version b with
                | Some v => url.Set_ "version" (fmt.Sprintf_d v) params
                | None => params
                end in
  let params := if decide (versionType b ≠ "")
                then url.Set_ "version_type" (versionType b) params else params in
  let params := if decide (timestamp b ≠ "")
                then url.Set_ "timestamp" (timestamp b) params else params in
  let params := if decide (ttl b ≠ "")
                then url.Set_ "ttl" (ttl b) params else params in
  let params := if decide (timeout b ≠ "")
                then url.Set_ "timeout" (timeout b) params else params in
  params.

Definition Do (b : IndexService)
  : Prog (option IndexResult.IndexResult * option error) :=
  let '(method, urls) := target b in
  match uritemplates.Expand pctEncode urls
          (<["index" := index b]> (<["type" := _type b]> (<["id" := id b]> ∅)))
  with
  | inr err => Ret (None, Some err)
  | inl urls =>
      let params := params b in
      let urls := if decide (0 < size params)%nat
                  then urls +:+ "?" +:+ url.Encode params else urls in
      r <- call (NewRequest method urls) ;;
      match r with
      | inr err => Ret (None, Some err)
      | inl req =>
          match bodyJson b with
          | Some json => call (SetBodyJson req json)
          | None => call (SetBodyString req (bodyString b))
          end ;;
          when (debug b) (call (dumpRequest req)) ;;
          r <- call (HttpDo req) ;;
          match r with
          | inr err => Ret (None, Some err)
          | inl res =>
              c <- call (checkResponse res) ;;
              match c with
              | Some err => Ret (None, Some err)
              | None =>
                  when (debug b) (call (dumpResponse res)) ;;
                  d <- call (Decode res) ;;
                  call (BodyClose res) ;;
                  match d with
                  | inr err => Ret (None, Some err)
                  | inl ret => Ret (Some ret, None)
                  end
              end
          end
      end
  end.

(** *** The parameters on the wire *)

(** What [Do] appends to the expanded path. *)
Definition query (b : IndexService) : string :=
  if decide (0 < size (params b))%nat then "?" +:+ url.Encode (params b)
  else "".

Definition nonempty (s : string) : option string :=
  if decide (s ≠ "") then Some s else None.

Definition present (c : list (string * option string)) : list (string * string) :=
  omap (fun kv => pair kv.1 <$> kv.2) c.

(** Every parameter [Do] can send, by ascending key, with its value when it
    is sent. *)
Definition candidates (b : IndexService) : list (string * option string) :=
  [ ("op_type", nonempty (opType b));
    ("parent", nonempty (parent b));
    ("pretty", if pretty b then Some "true" else None);
    ("refresh", match refresh b with Some true => Some "true" | _ => None end);
    ("routing", nonempty (routing b));
    ("timeout", nonempty (timeout b));
    ("timestamp", nonempty (timestamp b));
    ("ttl", nonempty (ttl b));
    ("version", fmt.Sprintf_d <$> version b);
    ("version_type", nonempty (versionType b)) ].

Definition emitted (b : IndexService) : list (string * string) :=
  present (candidates b).

(** The parameters as the specification lists them, in its order. *)
Definition listed_candidates (b : IndexService) : list (string * option string) :=
  [ ("routing", nonempty (routing b));
    ("parent", nonempty (parent b));
    ("op_type", nonempty (opType b));
    ("refresh", match refresh b with Some true => Some "true" | _ => None end);
    ("version", fmt.Sprintf_d <$> version b);
    ("version_type", nonempty (versionType b));
    ("timestamp", nonempty (timestamp b));
    ("ttl", nonempty (ttl b));
    ("timeout", nonempty (timeout b)) ].

Definition listed (b : IndexService) : list (string * string) :=
  present (listed_candidates b).

(** The [?]-prefixed query string of a list of parameters, nothing when the
    list is empty. *)
Definition query_of (l : list (string * string)) : string :=
  match l with
  | [] => ""
  | _ :: _ => "?" +:+ url.encoded l
  end.

(** *** Running [Do] against a client *)

(** The client, the transport and the decoder answer each call, and may
    change their own state [W] while doing so. *)
Definition handler (W : Type) : Type := forall X : Type, Event X -> W -> X * W.

(** A call that was made, with the answer it got. *)
Record Call : Type := MkCall {
  call_type : Type;
  call_event : Event call_type;
  call_answer : call_type
}.

Arguments MkCall {call_type} call_event call_answer.

Record Run (A W : Type) : Type := MkRun {
  calls : list Call;
  result : A;
  final : W
}.

Arguments MkRun {A W} calls result final.
Arguments calls {A W} r.
Arguments result {A W} r.
Arguments final {A W} r.

Fixpoint run {A W : Type} (h : handler W) (p : Prog A) (w : W) : Run A W :=
  match p with
  | Ret a => MkRun [] a w
  | Vis e k =>
      let '(x, w') := h _ e w in
      let r := run h (k x) w' in
      MkRun (MkCall e x :: calls r) (result r) (final r)
  end.

(** The requests created in a run: method and URL of each [NewRequest]. *)
Definition requested (tr : list Call) : list (string * string) :=
  omap (fun c => match call_event c with
                 | NewRequest method urls => Some (method, urls)
                 | _ => None
                 end) tr.

(** The requests sent, the status checks that failed, and whether the
    decoder was asked. *)
Definition sent (tr : list Call) : list Request :=
  omap (fun c => match call_event c with
                 | HttpDo req => Some req
                 | _ => None
                 end) tr.

Definition is_Decode (c : Call) : bool :=
  match call_event c with
  | Decode _ => true
  | _ => false
  end.

Definition status_error (c : Call) : option error :=
  match c with
  | MkCall (checkResponse _) answer => answer
  | _ => None
  end.

Definition decoded (c : Call) : option IndexResult.IndexResult :=
  match c with
  | MkCall (Decode _) (inl ret) => Some ret
  | _ => None
  end.

(** *** Reading a run *)

(** The calls by what they are, whatever their arguments. *)
Inductive Kind : Type :=
| KNewRequest | KSetBody | KDumpRequest | KHttpDo | KCheckResponse
| KDumpResponse | KDecode | KBodyClose.

#[global] Instance Kind_eq_dec : EqDecision Kind.
Proof. solve_decision. Defined.

Definition kind (c : Call) : Kind :=
  match call_event c with
  | NewRequest _ _ => KNewRequest
  | SetBodyJson _ _ => KSetBody
  | SetBodyString _ _ => KSetBody
  | dumpRequest _ => KDumpRequest
  | HttpDo _ => KHttpDo
  | checkResponse _ => KCheckResponse
  | dumpResponse _ => KDumpResponse
  | Decode _ => KDecode
  | BodyClose _ => KBodyClose
  end.

(** The calls of a run of [Do] that goes all the way, in their order. *)
Definition script (b : IndexService) : list Kind :=
  [KNewRequest; KSetBody]
  ++ (if debug b then [KDumpRequest] else [])
  ++ [KHttpDo; KCheckResponse]
  ++ (if debug b then [KDumpResponse] else [])
  ++ [KDecode; KBodyClose].

(** The requests [NewRequest] returned. *)
Definition created (tr : list Call) : list Request :=
  omap (fun c => match c with
                 | MkCall (NewRequest _ _) (inl req) => Some req
                 | _ => None
                 end) tr.

(** The bodies set, each with the request it was set on. *)
Definition bodies (tr : list Call) : list (Request * (Json + string)) :=
  omap (fun c => match call_event c with
                 | SetBodyJson req json => Some (req, inl json)
                 | SetBodyString req body => Some (req, inr body)
                 | _ => None
                 end) tr.

(** The body [Do] chooses. *)
Definition chosen_body (b : IndexService) : Json + string :=
  match bodyJson b with
  | Some json => inl json
  | None => inr (bodyString b)
  end.

(** The error a call answered, if it failed. *)
Definition failure (c : Call) : option error :=
  match c with
  | MkCall (NewRequest _ _) (inr err) => Some err
  | MkCall (HttpDo _) (inr err) => Some err
  | MkCall (checkResponse _) (Some err) => Some err
  | MkCall (Decode _) (inr err) => Some err
  | _ => None
  end.

(** The responses whose status check passed, and the responses closed. *)
Definition passed (tr : list Call) : list Response :=
  omap (fun c => match c with
                 | MkCall (checkResponse res) None => Some res
                 | _ => None
                 end) tr.

Definition closed (tr : list Call) : list Response :=
  omap (fun c => match call_event c with
                 | BodyClose res => Some res
                 | _ => None
                 end) tr.

(** *** Sample builders *)

Definition blog_post : IndexService :=
  Type_ "post" (Index "blog" NewIndexService).

Definition blog_post_42 : IndexService := Id "42" blog_post.

Definition routed_child : IndexService :=
  Parent "p" (Routing "r" blog_post).

Definition pretty_post : IndexService := Pretty true blog_post.

End Service.

Arguments IndexService : clear implicits.
Arguments Call : clear implicits.
Arguments handler : clear implicits.
Arguments Event : clear implicits.
Arguments Prog : clear implicits.
Arguments Ret {Json Request Response A} a.
Arguments Vis {Json Request Response A X} e k.
Arguments Run : clear implicits.
Arguments MkRun {Json Request Response A W} calls result final.
Arguments calls {Json Request Response A W} r.
Arguments result {Json Request Response A W} r.
Arguments final {Json Request Response A W} r.
Arguments MkCall {Json Request Response call_type} call_event call_answer.

(** *** A client for examples

    Requests are kept as method and URL, a response is a status and a body;
    the transport answers every request with the same response; a status
    from 200 to 299 is a success; the decoder knows one document. *)
Definition created_body : string :=
  "{_index:blog,_type:post,_id:1,_version:1,created:true}".

Definition ok_response : Z * string := (200%Z, created_body).

Definition missing_response : Z * string := (404%Z, "missing").

Definition escaping (s : string) : option string :=
  Some (uritemplates.pctEscape s).

Definition created_result : IndexResult.IndexResult :=
  IndexResult.MkIndexResult "blog" "post" "1" 1 true.

Definition mock (res : Z * string)
  : handler string (string * string) (Z * string) unit :=
  fun X e w =>
    match e in Event _ _ _ X return X * unit with
    | NewRequest method urls => (inl (method, urls), w)
    | SetBodyJson _ _ => (tt, w)
    | SetBodyString _ _ => (tt, w)
    | dumpRequest _ => (tt, w)
    | HttpDo _ => (inl res, w)
    | checkResponse (status, body) =>
        (if decide (200 ≤ status ≤ 299)%Z then None
         else Some (HTTPStatusError status body), w)
    | dumpResponse _ => (tt, w)
    | Decode (_, body) =>
        (if decide (body = created_body) then inl created_result
         else inr (DecodeError body), w)
    | BodyClose _ => (tt, w)
    end.

End IndexService.

(** ** Properties of SearchRequest *)

Module SearchRequestSpec.
Import SearchRequest.

Section Descriptor.

Context {Any SearchSource : Type}.
Variable render : SearchSource -> iface Any SearchSource.

Abbreviation SearchRequest := (SearchRequest Any SearchSource).
Implicit Types r : SearchRequest.

(** Each adding setter appends to what was added before. *)
Lemma Index_indices r i : indices (Index i r) = indices r ++ [i].
Proof. by destruct r. Qed.

Lemma Indices_indices r l : indices (Indices l r) = indices r ++ l.
Proof. by destruct r. Qed.

Lemma Type_types r t : types (Type_ t r) = types r ++ [t].
Proof. by destruct r. Qed.

Lemma Types_types r l : types (Types l r) = types r ++ l.
Proof. by destruct r. Qed.

Lemma NewSearchRequest_empty :
  indices (@NewSearchRequest Any SearchSource) = [] ∧
  types (@NewSearchRequest Any SearchSource) = [].
Proof. done. Qed.

(** [Source] stores what a [*SearchSource] renders, and any other value as
    it is; [body] hands it back. *)
Lemma Source_body r (v : SearchSource) (a : Any) :
  (body (Source render (SearchSourcePtr v) r)).1 = render v ∧
  (body (Source render (Other a) r)).1 = Other a ∧
  (body (Source render Nil r)).1 = Nil.
Proof. by destruct r. Qed.

Lemma HasIndices_spec r : HasIndices r = true ↔ indices r ≠ [].
Proof.
  unfold HasIndices. rewrite bool_decide_eq_true.
  destruct (indices r); cbn; split; (done || lia).
Qed.

(** Case analysis on everything [header] looks at. *)
Ltac header_cases r :=
  destruct r as [st [|i0 [|i1 il]] [|t0 [|t1 tl]] [ro|] [p|] s];
  unfold header; cbn [searchType indices types routing preference];
  repeat case_decide; simplify_map_eq; try done.

(** C1: with one type the header has [types] holding that type as a string
    and no [type]; with two or more it has [type] holding all of them in the
    order they were added and no [types]; with none it has neither. *)
Theorem header_types r :
  match types r with
  | [] => (header r).1 !! "types" = None ∧ (header r).1 !! "type" = None
  | [t0] =>
      (header r).1 !! "types" = Some (HString t0) ∧ (header r).1 !! "type" = None
  | _ :: _ :: _ =>
      (header r).1 !! "type" = Some (HStrings (types r)) ∧
      (header r).1 !! "types" = None
  end.
Proof. header_cases r. Qed.

(** C2: with one index the header has [index] holding that index as a string
    and no [indices]; with two or more it has [indices] holding all of them
    in the order they were added and no [index]; with none it has neither. *)
Theorem header_indices r :
  match indices r with
  | [] => (header r).1 !! "index" = None ∧ (header r).1 !! "indices" = None
  | [i0] =>
      (header r).1 !! "index" = Some (HString i0) ∧
      (header r).1 !! "indices" = None
  | _ :: _ :: _ =>
      (header r).1 !! "indices" = Some (HStrings (indices r)) ∧
      (header r).1 !! "index" = None
  end.
Proof. header_cases r. Qed.

(** C5: [Routings()] without arguments leaves the routing absent, which is
    not the same as holding the empty string; [Routings("a", "b")] stores the
    one string "a,b"; and any arguments are stored joined by commas. *)
Theorem Routings_joins r :
  routing (Routings (variadic []) r) = None ∧
  routing (Routings (variadic []) r) ≠ routing (Routing "" r) ∧
  routing (Routings (variadic ["a"; "b"]) r) = Some "a,b" ∧
  ∀ a l, routing (Routings (variadic (a :: l)) r)
         = Some (GoStrings.Join (a :: l) ",").
Proof. by destruct r. Qed.

(** A non-nil slice without elements, passed as [Routings(s...)], is not a
    call without arguments: it stores the empty string. *)
Remark Routings_empty_slice r : routing (Routings (Some []) r) = Some "".
Proof. by destruct r. Qed.

(** C9: [header] and [body] leave the descriptor as it was; [body] returns
    the stored source; projecting again gives the same views; and the header
    does not look at the source. *)
Theorem projections_pure st i t ro p (s s' : iface Any SearchSource) :
  let r := MkSearchRequest st i t ro p s in
  (header r).2 = r ∧ (body r).2 = r ∧
  (body r).1 = source r ∧
  (header (header r).2).1 = (header r).1 ∧
  (body (body r).2).1 = (body r).1 ∧
  (header (body r).2).1 = (header r).1 ∧
  (header (MkSearchRequest st i t ro p s')).1 = (header r).1.
Proof. by repeat split. Qed.

End Descriptor.

(** *** On sample descriptors *)

Example header_one_index :
  (header (Type_ "post" (Index "blog" (@NewSearchRequest unit unit)))).1
  = <["index" := HString "blog"]> (<["types" := HString "post"]> ∅).
Proof. by vm_compute. Qed.

Example header_two_indices :
  (header (Types ["post"; "page"]
             (Index "b" (Index "a" (@NewSearchRequest unit unit))))).1
  = <["indices" := HStrings ["a"; "b"]]>
      (<["type" := HStrings ["post"; "page"]]> ∅).
Proof. by vm_compute. Qed.

Example header_empty_routing :
  (header (Routing "" (SearchTypeCount (@NewSearchRequest unit unit)))).1
  = <["search_type" := HString "count"]> ∅.
Proof. by vm_compute. Qed.

Example Routings_three :
  routing (Routings (variadic ["a"; "b"; "c"]) (@NewSearchRequest unit unit))
  = Some "a,b,c".
Proof. reflexivity. Qed.

End SearchRequestSpec.

(** ** Properties of the Go library functions *)

Module GoFacts.

Lemma append_cons x (a b : string) : String x a +:+ b = String x (a +:+ b).
Proof. reflexivity. Qed.

Lemma append_assoc (a b c : string) : (a +:+ b) +:+ c = a +:+ (b +:+ c).
Proof. induction a as [|x a IH]; [done|]. by rewrite !append_cons, IH. Qed.

Lemma append_nil_r (a : string) : a +:+ "" = a.
Proof. induction a as [|x a IH]; [done|]. by rewrite append_cons, IH. Qed.

Lemma length_append (a b : string) :
  String.length (a +:+ b) = (String.length a + String.length b)%nat.
Proof.
  induction a as [|x a IH]; [done|]. rewrite append_cons. cbn. by rewrite IH.
Qed.

Lemma component_nonempty kv : (0 < String.length (url.component kv))%nat.
Proof. unfold url.component. rewrite !length_append. cbn. lia. Qed.

Lemma write_nonempty buf kv : (0 < String.length (url.write buf kv))%nat.
Proof.
  unfold url.write. rewrite length_append.
  pose proof (component_nonempty kv). lia.
Qed.

(** Once the buffer holds something, every value is written after a [&]. *)
Lemma foldl_write buf l :
  (0 < String.length buf)%nat →
  foldl url.write buf l
  = foldl (fun b s => b +:+ "&" +:+ s) buf (map url.component l).
Proof.
  revert buf. induction l as [|kv l IH]; intros buf Hbuf; [done|].
  cbn [foldl map]. rewrite IH by apply write_nonempty.
  f_equal. unfold url.write. rewrite decide_True by done. apply append_assoc.
Qed.

Lemma foldl_write_encoded l : foldl url.write "" l = url.encoded l.
Proof.
  destruct l as [|kv l]; [done|].
  unfold url.encoded, GoStrings.Join. cbn [foldl map].
  change (url.write "" kv) with (url.component kv).
  apply foldl_write, component_nonempty.
Qed.

(** The length of a joined string: every element, and a separator before
    all but the first. *)
Lemma length_foldl_join e rest :
  String.length (foldl (fun b s => b +:+ "&" +:+ s) e rest)
  = (String.length e + sum_list_with (fun s => S (String.length s)) rest)%nat.
Proof.
  revert e. induction rest as [|s rest IH]; intros e; cbn [foldl sum_list_with].
  - lia.
  - rewrite IH, !length_append. cbn. lia.
Qed.

Lemma singly_keys (l : list (string * string)) : (url.singly <$> l).*1 = l.*1.
Proof. rewrite <-list_fmap_compose. by apply list_fmap_ext. Qed.

(** Sorting the keys of a map built from a list with ascending keys gives
    back the keys of the list. *)
Lemma sorted_keys (l : list (string * string)) :
  Sorted String.le l.*1 → NoDup l.*1 →
  merge_sort String.le
    (map_to_list (list_to_map (url.singly <$> l) : url.Values)).*1
  = l.*1.
Proof.
  intros Hsorted Hnodup.
  apply (Sorted_unique String.le); [apply Sorted_merge_sort, _|done|].
  rewrite merge_sort_Permutation, map_to_list_to_map
    by by rewrite singly_keys.
  by rewrite singly_keys.
Qed.

Lemma foldl_lookup (m : url.Values) l buf :
  Forall (fun kv => m !! kv.1 = Some [kv.2]) l →
  foldl (fun buf k =>
           let vs := default [] (m !! k) in
           let keyEscaped := url.QueryEscape k in
           foldl (fun buf value =>
                    let buf := if decide (0 < String.length buf)%nat
                               then buf +:+ "&" else buf in
                    buf +:+ keyEscaped +:+ "=" +:+ url.QueryEscape value)
                 buf vs) buf l.*1
  = foldl url.write buf l.
Proof.
  intros Hall. revert buf.
  induction Hall as [|[k v] l Hk _ IH]; intros buf; [done|].
  cbn [fmap list_fmap foldl fst]. cbn in Hk. rewrite Hk. cbn [default foldl].
  apply IH.
Qed.

(** [Encode] on single-valued parameters with ascending keys writes them in
    that order, [&] between two of them. *)
Lemma Encode_sorted (l : list (string * string)) :
  Sorted String.le l.*1 → NoDup l.*1 →
  url.Encode (list_to_map (url.singly <$> l)) = url.encoded l.
Proof.
  intros Hsorted Hnodup. unfold url.Encode.
  rewrite sorted_keys by done. cbv zeta.
  rewrite foldl_lookup; [apply foldl_write_encoded|].
  apply Forall_forall. intros [k v] Hin. cbn.
  apply elem_of_list_to_map_1; [by rewrite singly_keys|].
  by apply (list_elem_of_fmap_2 url.singly l (k, v)).
Qed.

Lemma lookup_set_opt k o (m : url.Values) j :
  url.set_opt k o m !! j
  = if decide (k = j) then from_option (fun v => Some [v]) (m !! j) o
    else m !! j.
Proof.
  destruct o as [v|]; cbn; [|by case_decide]. unfold url.Set_.
  by rewrite lookup_insert.
Qed.

Lemma StronglySorted_sublist {A} (R : relation A) (l k : list A) :
  l `sublist_of` k → StronglySorted R k → StronglySorted R l.
Proof.
  induction 1 as [|x l k Hsub IH|x l k Hsub IH]; intros Hk;
    [done| |]; apply StronglySorted_inv in Hk as [Hk Hx]; [|by auto].
  constructor; [by auto|].
  eapply Forall_forall. intros y Hy.
  eapply Forall_forall in Hx; [done|]. by eapply sublist_subseteq.
Qed.

End GoFacts.

(** ** Properties of IndexService *)

Module IndexServiceSpec.
Import IndexService GoFacts.

Section Service.

Context {Json Request Response : Type}.

Abbreviation IndexService := (IndexService Json).
Implicit Types b : IndexService.

(** *** The parameters and their order *)

Lemma set_nonempty k s (m : url.Values) :
  (if decide (s ≠ "") then url.Set_ k s m else m)
  = url.set_opt k (nonempty s) m.
Proof. unfold nonempty. by case_decide. Qed.

(** [params], with every conditional [Set] written as [set_opt]. *)
Lemma params_set_opt b :
  params b =
  url.set_opt "timeout" (nonempty (timeout b))
    (url.set_opt "ttl" (nonempty (ttl b))
      (url.set_opt "timestamp" (nonempty (timestamp b))
        (url.set_opt "version_type" (nonempty (versionType b))
          (url.set_opt "version" (fmt.Sprintf_d <$> version b)
            (url.set_opt "refresh"
               (match refresh b with Some true => Some "true" | _ => None end)
              (url.set_opt "op_type" (nonempty (opType b))
                (url.set_opt "parent" (nonempty (parent b))
                  (url.set_opt "routing" (nonempty (routing b))
                    (url.set_opt "pretty"
                       (if pretty b then Some "true" else None) ∅))))))))).
Proof.
  unfold params. rewrite !set_nonempty.
  by destruct (pretty b), (refresh b) as [[]|], (version b).
Qed.

Lemma list_to_map_present c :
  list_to_map (url.singly <$> present c)
  = foldr (fun kv m => url.set_opt kv.1 kv.2 m) (∅ : url.Values) c.
Proof.
  induction c as [|[k [v|]] c IH]; [done| |]; cbn.
  - unfold present in IH. by rewrite IH.
  - done.
Qed.

(** The map [Do] builds holds the parameters of [emitted], and nothing else. *)
Lemma params_emitted b : params b = list_to_map (url.singly <$> emitted b).
Proof.
  unfold emitted. rewrite list_to_map_present, params_set_opt.
  unfold candidates; cbn [foldr fst snd].
  generalize (nonempty (timeout b)) (nonempty (ttl b)) (nonempty (timestamp b))
    (nonempty (versionType b)) (fmt.Sprintf_d <$> version b)
    (match refresh b with Some true => Some "true" | _ => None end)
    (nonempty (opType b)) (nonempty (parent b)) (nonempty (routing b))
    (if pretty b then Some "true" else None).
  intros o1 o2 o3 o4 o5 o6 o7 o8 o9 o10.
  apply map_eq; intros j. rewrite !lookup_set_opt.
  repeat (case_decide; simplify_eq/=); done.
Qed.

Lemma present_keys_sublist c : (present c).*1 `sublist_of` c.*1.
Proof.
  induction c as [|[k [v|]] c IH]; cbn; [done| |].
  - by apply sublist_skip.
  - by apply sublist_cons.
Qed.

Lemma candidates_keys b :
  (candidates b).*1
  = ["op_type"; "parent"; "pretty"; "refresh"; "routing"; "timeout";
     "timestamp"; "ttl"; "version"; "version_type"].
Proof. reflexivity. Qed.

Lemma emitted_sorted b : StronglySorted String.le (emitted b).*1.
Proof.
  eapply StronglySorted_sublist; [apply present_keys_sublist|].
  rewrite candidates_keys. repeat (constructor; [|by repeat constructor]).
  constructor.
Qed.

Lemma emitted_NoDup b : NoDup (emitted b).*1.
Proof.
  eapply sublist_NoDup; [|apply present_keys_sublist].
  rewrite candidates_keys. by apply (bool_decide_unpack _).
Qed.

Lemma query_emitted b : query b = query_of (emitted b).
Proof.
  unfold query. rewrite params_emitted, map_size_list_to_map, length_fmap
    by (rewrite singly_keys; apply emitted_NoDup).
  rewrite Encode_sorted
    by auto using emitted_NoDup, emitted_sorted, StronglySorted_Sorted.
  by destruct (emitted b).
Qed.

Lemma candidates_listed b :
  candidates b
  ≡ₚ ("pretty", if pretty b then Some "true" else None) :: listed_candidates b.
Proof.
  apply NoDup_Permutation.
  - apply (NoDup_fmap_1 fst). rewrite candidates_keys.
    by apply (bool_decide_unpack _).
  - apply (NoDup_fmap_1 fst). by apply (bool_decide_unpack _).
  - intros x. unfold candidates, listed_candidates.
    rewrite !elem_of_cons. tauto.
Qed.

(** *** Single parameters *)

Variable pctEncode : string -> option string.

(** The query string is one byte longer than its parameters, for every
    parameter. *)
Lemma length_query_of l :
  String.length (query_of l)
  = sum_list_with (fun kv => S (String.length (url.component kv))) l.
Proof.
  destruct l as [|kv l]; [done|].
  unfold query_of, url.encoded, GoStrings.Join. cbn [map].
  rewrite length_append, length_foldl_join. cbn [sum_list_with String.length].
  assert (sum_list_with (fun s => S (String.length s)) (map url.component l)
          = sum_list_with (fun kv => S (String.length (url.component kv))) l)
    as ->; [|lia].
  induction l as [|kv' l IH]; [done|]. cbn [map sum_list_with]. by rewrite IH.
Qed.

Lemma emitted_keys b k : k ∈ (emitted b).*1 ↔ is_Some (params b !! k).
Proof.
  rewrite params_emitted, <-not_eq_None_Some, <-not_elem_of_list_to_map.
  rewrite singly_keys. destruct (decide (k ∈ (emitted b).*1)); naive_solver.
Qed.

Lemma params_refresh b :
  params b !! "refresh"
  = match refresh b with Some true => Some ["true"] | _ => None end.
Proof.
  rewrite params_set_opt, !lookup_set_opt.
  repeat (case_decide; simplify_eq/=). by destruct (refresh b) as [[]|].
Qed.

Lemma params_version b :
  params b !! "version" = (fun v => [fmt.Sprintf_d v]) <$> version b.
Proof.
  rewrite params_set_opt, !lookup_set_opt.
  repeat (case_decide; simplify_eq/=). by destruct (version b).
Qed.

(** The parameters before [version] and after it do not depend on it. *)
Lemma emitted_version b :
  emitted b
  = present (take 8 (candidates b))
    ++ present [("version", fmt.Sprintf_d <$> version b)]
    ++ present [("version_type", nonempty (versionType b))].
Proof. unfold emitted, present. by rewrite <-!omap_app. Qed.

(** The parameters before [refresh] and after it do not depend on it. *)
Lemma emitted_refresh b :
  emitted b
  = present (take 3 (candidates b))
    ++ present
         [("refresh",
           match refresh b with Some true => Some "true" | _ => None end)]
    ++ present (drop 4 (candidates b)).
Proof. unfold emitted, present. by rewrite <-!omap_app. Qed.

(** *** What a run of [Do] does *)

(** The two templates of [Do], expanded. *)
Lemma Expand_with_id (i t d ei et ed : string) :
  pctEncode i = Some ei → pctEncode t = Some et → pctEncode d = Some ed →
  uritemplates.Expand pctEncode "/{index}/{type}/{id}"
    (<["index" := i]> (<["type" := t]> (<["id" := d]> ∅)))
  = inl ("/" +:+ ei +:+ "/" +:+ et +:+ "/" +:+ ed).
Proof.
  intros Hi Ht Hd. rewrite <-(append_nil_r ed).
  unfold uritemplates.Expand. vm_compute.
  rewrite Hi, Ht, Hd. reflexivity.
Qed.

Lemma Expand_without_id (i t d ei et : string) :
  pctEncode i = Some ei → pctEncode t = Some et →
  uritemplates.Expand pctEncode "/{index}/{type}/"
    (<["index" := i]> (<["type" := t]> (<["id" := d]> ∅)))
  = inl ("/" +:+ ei +:+ "/" +:+ et +:+ "/").
Proof.
  intros Hi Ht. unfold uritemplates.Expand. vm_compute.
  rewrite Hi, Ht. reflexivity.
Qed.

Abbreviation vars b :=
  (<["index" := index b]> (<["type" := _type b]> (<["id" := id b]> ∅))
   : gmap string string).

Section Run.

Context {W : Type} (h : handler Json Request Response W) (w : W).

Ltac answer :=
  cbn [run bind call when calls result final];
  match goal with
  | |- context [h ?X ?e ?w'] => destruct (h X e w') as [? ?]
  end.

(** Every way a run of [Do] can go, one goal for each. *)
Ltac all_runs b :=
  unfold Do; destruct (target b) as [method template];
  destruct (uritemplates.Expand pctEncode template (vars b)) as [path|err'];
  destruct (bodyJson b), (debug b);
  repeat (answer; repeat case_match; simplify_eq);
  cbn [run bind call when calls result final].

(** When the path does not expand, [Do] returns that error and has asked
    nothing of its client. *)
Lemma Do_expand_error b err :
  uritemplates.Expand pctEncode (target b).2 (vars b) = inr err →
  run h (Do pctEncode b) w = MkRun [] (None, Some err) w.
Proof.
  unfold Do. destruct (target b) as [method template]. cbn [snd].
  by intros ->.
Qed.

(** When it does, [Do] creates one request: the method it chose, and the
    expanded path followed by the query string. *)
Lemma Do_requested b path :
  uritemplates.Expand pctEncode (target b).2 (vars b) = inl path →
  requested (calls (run h (Do pctEncode b) w))
  = [((target b).1, path +:+ query b)].
Proof.
  unfold Do; destruct (target b) as [method template]; cbn [fst snd].
  intros ->. unfold query.
  destruct (bodyJson b), (debug b);
  repeat (answer; repeat case_match; simplify_eq);
  cbn [run bind call when calls result final];
  cbn; case_decide; by rewrite ?append_nil_r.
Qed.

(** C3, as the code has it: the query string [Do] appends to the path holds
    the parameters that are present among [op_type], [parent], [pretty],
    [refresh], [routing], [timeout], [timestamp], [ttl], [version] and
    [version_type], in this order, which is the ascending order of their
    keys; these are the listed parameters and [pretty]; and there is no [?]
    without a parameter. *)
Theorem query_by_ascending_key b path :
  uritemplates.Expand pctEncode (target b).2 (vars b) = inl path →
  requested (calls (run h (Do pctEncode b) w))
  = [((target b).1, path +:+ query_of (emitted b))] ∧
  query b = query_of (emitted b) ∧
  StronglySorted String.le (emitted b).*1 ∧
  NoDup (emitted b).*1 ∧
  emitted b
  ≡ₚ present [("pretty", if pretty b then Some "true" else None)] ++ listed b ∧
  (query_of (emitted b) = "" ↔ emitted b = []).
Proof.
  intros Hexpand. split_and!.
  - by rewrite (Do_requested _ _ Hexpand), query_emitted.
  - apply query_emitted.
  - apply emitted_sorted.
  - apply emitted_NoDup.
  - unfold emitted, listed, present. rewrite <-omap_app.
    by rewrite candidates_listed.
  - by destruct (emitted b).
Qed.

(** C7: after [Version(0)] the parameters hold [version] with the value
    [0] and the query string of the request has [version=0] as one of its
    parameters; without a call of [Version] there is no [version] parameter;
    and the two query strings differ. *)
Theorem version_zero_is_sent i ty d ro pa ot rf vt ts tl to bs
    (bj : option Json) pr db path :
  let unset := MkIndexService i ty d ro pa ot rf None vt ts tl to bs bj pr db in
  uritemplates.Expand pctEncode (target unset).2 (vars unset) = inl path →
  version (Version 0 unset) = Some 0%Z ∧
  params (Version 0 unset) !! "version" = Some ["0"] ∧
  (∃ before after,
     requested (calls (run h (Do pctEncode (Version 0 unset)) w))
     = [((target unset).1,
         path +:+ "?"
         +:+ GoStrings.Join (before ++ "version=0" :: after) "&")]) ∧
  params unset !! "version" = None ∧
  ("version" ∉ (emitted unset).*1) ∧
  requested (calls (run h (Do pctEncode unset) w))
  = [((target unset).1, path +:+ query_of (emitted unset))] ∧
  query (Version 0 unset) ≠ query unset.
Proof.
  intros unset Hexpand.
  assert (emitted (Version 0 unset)
          = present (take 8 (candidates unset))
            ++ ("version", "0") :: present [("version_type", nonempty vt)])
    as Hzero by apply emitted_version.
  assert (emitted unset
          = present (take 8 (candidates unset))
            ++ present [("version_type", nonempty vt)])
    as Hunset by apply emitted_version.
  split_and!; try done.
  - by rewrite params_version.
  - exists (map url.component (present (take 8 (candidates unset)))),
      (map url.component (present [("version_type", nonempty vt)])).
    rewrite (Do_requested (Version 0 unset) path) by done.
    rewrite query_emitted, Hzero. unfold query_of, url.encoded.
    rewrite map_app. cbn [map].
    by destruct (present (take 8 (candidates unset))).
  - by rewrite params_version.
  - rewrite emitted_keys, params_version. by intros [? ?].
  - by rewrite (Do_requested _ _ Hexpand), query_emitted.
  - intros Heq. apply (f_equal String.length) in Heq.
    rewrite !query_emitted, !length_query_of, Hzero, Hunset in Heq.
    rewrite !sum_list_with_app in Heq. cbn [sum_list_with] in Heq. lia.
Qed.

(** C6: the URL of the request [Do] creates carries [refresh=true] as one
    of its parameters when [refresh] was set to [true], and has no [refresh]
    parameter otherwise: [refresh] is among the parameters of the query
    string exactly when it was set to [true]. After [Refresh(false)] the
    request, the parameters, the query string and the whole of [Do] are what
    they are on the same builder without any call of [Refresh]. *)
Theorem refresh_only_when_true i ty d ro pa ot ve vt ts tl to bs
    (bj : option Json) pr db path :
  let builder rf := MkIndexService i ty d ro pa ot rf ve vt ts tl to bs bj pr db in
  let unset := builder None in
  uritemplates.Expand pctEncode (target unset).2 (vars unset) = inl path →
  (∀ rf, requested (calls (run h (Do pctEncode (builder rf)) w))
         = [((target unset).1, path +:+ query_of (emitted (builder rf)))]) ∧
  (∀ rf, "refresh" ∈ (emitted (builder rf)).*1 ↔ rf = Some true) ∧
  (∀ rf, params (builder rf) !! "refresh"
         = match rf with Some true => Some ["true"] | _ => None end) ∧
  (∃ before after,
     requested (calls (run h (Do pctEncode (Refresh true unset)) w))
     = [((target unset).1,
         path +:+ "?"
         +:+ GoStrings.Join (before ++ "refresh=true" :: after) "&")]) ∧
  Refresh false unset = builder (Some false) ∧
  requested (calls (run h (Do pctEncode (Refresh false unset)) w))
  = requested (calls (run h (Do pctEncode unset) w)) ∧
  requested (calls (run h (Do pctEncode unset) w))
  = [((target unset).1, path +:+ query_of (emitted unset))] ∧
  ("refresh" ∉ (emitted (Refresh false unset)).*1) ∧
  ("refresh" ∉ (emitted unset).*1) ∧
  params (Refresh false unset) = params unset ∧
  query (Refresh false unset) = query unset ∧
  (Do (Request:=Request) (Response:=Response) pctEncode (Refresh false unset)
   = Do pctEncode unset).
Proof.
  intros builder unset Hexpand.
  assert (∀ rf, requested (calls (run h (Do pctEncode (builder rf)) w))
                = [((target unset).1,
                    path +:+ query_of (emitted (builder rf)))]) as Hrequested.
  { intros rf. by rewrite (Do_requested (builder rf) path), query_emitted. }
  assert (emitted (builder (Some true))
          = present (take 3 (candidates unset))
            ++ ("refresh", "true") :: present (drop 4 (candidates unset)))
    as Htrue by apply emitted_refresh.
  split_and!; try done.
  - intros rf. rewrite emitted_keys, params_refresh.
    destruct rf as [[]|]; split; try done; by intros [? ?].
  - intros rf. apply params_refresh.
  - exists (map url.component (present (take 3 (candidates unset)))),
      (map url.component (present (drop 4 (candidates unset)))).
    etrans; [exact (Hrequested (Some true))|].
    rewrite Htrue. unfold query_of, url.encoded.
    rewrite map_app. cbn [map].
    by destruct (present (take 3 (candidates unset))).
  - exact (Hrequested None).
  - rewrite emitted_keys, params_refresh. by intros [? ?].
  - rewrite emitted_keys, params_refresh. by intros [? ?].
Qed.

Lemma target_method b :
  (target b).1 = "PUT" ↔ id b ≠ "".
Proof. unfold target. by case_decide. Qed.

(** C4: with an id, [Do] creates a PUT request whose path is the expansion
    of [/{index}/{type}/{id}] and ends in the encoded id; without one, a POST
    request whose path is the expansion of [/{index}/{type}/] and ends in
    [/]. The query string follows the path. *)
Theorem Do_method_and_path b ei et :
  pctEncode (index b) = Some ei →
  pctEncode (_type b) = Some et →
  (∀ eid, id b ≠ "" → pctEncode (id b) = Some eid →
     uritemplates.Expand pctEncode "/{index}/{type}/{id}" (vars b)
     = inl ("/" +:+ ei +:+ "/" +:+ et +:+ "/" +:+ eid) ∧
     requested (calls (run h (Do pctEncode b) w))
     = [("PUT", ("/" +:+ ei +:+ "/" +:+ et +:+ "/" +:+ eid) +:+ query b)]) ∧
  (id b = "" →
     uritemplates.Expand pctEncode "/{index}/{type}/" (vars b)
     = inl ("/" +:+ ei +:+ "/" +:+ et +:+ "/") ∧
     requested (calls (run h (Do pctEncode b) w))
     = [("POST", ("/" +:+ ei +:+ "/" +:+ et +:+ "/") +:+ query b)]).
Proof.
  intros Hindex Htype. split.
  - intros eid Hid Heid.
    pose proof (Expand_with_id _ _ _ _ _ _ Hindex Htype Heid) as Hexpand.
    split; [done|].
    erewrite Do_requested; unfold target; rewrite decide_True by done; done.
  - intros Hid.
    pose proof (Expand_without_id _ _ (id b) _ _ Hindex Htype) as Hexpand.
    split; [done|].
    erewrite Do_requested; unfold target; rewrite decide_False by auto; done.
Qed.

(** C10: an empty id is no id. [Id("")] leaves the id as [NewIndexService]
    has it and changes nothing on a builder without an id; [Do] then chooses
    POST and [/{index}/{type}/]; and a run whose request is a PUT had an id
    that is not empty. *)
Theorem Id_empty_is_unset b ei et :
  id (Id "" b) = id (@NewIndexService Json) ∧
  target (Id "" b) = ("POST", "/{index}/{type}/") ∧
  query (Id "" b) = query b ∧
  (id b = "" →
     Id "" b = b ∧
     Do (Request:=Request) (Response:=Response) pctEncode (Id "" b)
     = Do pctEncode b) ∧
  (pctEncode (index b) = Some ei → pctEncode (_type b) = Some et →
     requested (calls (run h (Do pctEncode (Id "" b)) w))
     = [("POST", ("/" +:+ ei +:+ "/" +:+ et +:+ "/") +:+ query b)]) ∧
  (∀ urls, ("PUT", urls) ∈ requested (calls (run h (Do pctEncode b) w)) →
     id b ≠ "").
Proof.
  split_and!.
  - by destruct b.
  - by destruct b.
  - by destruct b.
  - intros Hid. assert (Id "" b = b) as ->; [|done].
    destruct b; cbn in Hid. by subst.
  - intros Hindex Htype.
    assert (query (Id "" b) = query b) as <- by by destruct b.
    erewrite Do_requested.
    + by assert (target (Id "" b) = ("POST", "/{index}/{type}/")) as ->
        by by destruct b.
    + assert (target (Id "" b) = ("POST", "/{index}/{type}/")) as ->
        by by destruct b.
      destruct b. by apply Expand_without_id.
  - intros urls Hin. apply target_method.
    destruct (uritemplates.Expand pctEncode (target b).2 (vars b))
      as [path|err] eqn:Hexpand.
    + rewrite (Do_requested _ _ Hexpand) in Hin.
      apply list_elem_of_singleton in Hin. congruence.
    + rewrite (Do_expand_error _ _ Hexpand) in Hin. cbn in Hin.
      by apply elem_of_nil in Hin.
Qed.

(** C8: a run of [Do] ends either with the result the decoder gave and no
    error, or with an error and no result; when the status check fails, [Do]
    returns the error of the check and the decoder was never asked. At most
    one request is sent. *)
Theorem Do_result_or_error b :
  let r := run h (Do pctEncode b) w in
  ((∃ ret, result r = (Some ret, None) ∧
           omap decoded (calls r) = [ret] ∧
           omap status_error (calls r) = []) ∨
   (∃ err, result r = (None, Some err))) ∧
  (∀ err, err ∈ omap status_error (calls r) →
     result r = (None, Some err) ∧ existsb is_Decode (calls r) = false) ∧
  (List.length (sent (calls r)) ≤ 1)%nat.
Proof.
  all_runs b; cbn; (split_and!; [naive_solver| |lia]);
    intros err Herr; repeat (apply elem_of_cons in Herr as [->|Herr]; [done|]);
    by apply elem_of_nil in Herr.
Qed.

End Run.

End Service.

(** *** On the sample builders *)

(** C3, as the specification has it, fails: it lists [routing] before
    [parent], and [Do] sends [parent] first; it does not list [pretty], and
    [Do] sends it. *)
Lemma query_not_as_listed :
  query (@routed_child string) = "?parent=p&routing=r" ∧
  query_of (listed (@routed_child string)) = "?routing=r&parent=p" ∧
  query (@routed_child string) ≠ query_of (listed (@routed_child string)) ∧
  requested (calls (run (mock ok_response) (Do escaping routed_child) tt))
  = [("POST", "/blog/post/?parent=p&routing=r")] ∧
  query (@pretty_post string) = "?pretty=true" ∧
  query_of (listed (@pretty_post string)) = "" ∧
  query (@pretty_post string) ≠ query_of (listed (@pretty_post string)).
Proof. by vm_compute. Qed.

Lemma query_by_ascending_key_witness :
  uritemplates.Expand escaping (target (@routed_child string)).2
    (<["index" := "blog"]> (<["type" := "post"]> (<["id" := ""]> ∅)))
  = inl "/blog/post/" ∧
  requested (calls (run (mock ok_response) (Do escaping routed_child) tt))
  = [("POST", "/blog/post/?parent=p&routing=r")] ∧
  emitted (@routed_child string) = [("parent", "p"); ("routing", "r")].
Proof.
  assert (uritemplates.Expand escaping (target (@routed_child string)).2
            (<["index" := "blog"]> (<["type" := "post"]> (<["id" := ""]> ∅)))
          = inl "/blog/post/") as Hexpand by reflexivity.
  split; [exact Hexpand|].
  destruct (query_by_ascending_key escaping (mock ok_response) tt
              routed_child "/blog/post/" Hexpand) as (Hrequested & _).
  split; [exact Hrequested|reflexivity].
Defined.

Lemma version_zero_is_sent_witness :
  uritemplates.Expand escaping (target (@blog_post string)).2
    (<["index" := "blog"]> (<["type" := "post"]> (<["id" := ""]> ∅)))
  = inl "/blog/post/" ∧
  params (Version 0 (@blog_post string)) !! "version" = Some ["0"] ∧
  params (@blog_post string) !! "version" = None ∧
  query (Version 0 (@blog_post string)) ≠ query (@blog_post string).
Proof.
  assert (uritemplates.Expand escaping (target (@blog_post string)).2
            (<["index" := "blog"]> (<["type" := "post"]> (<["id" := ""]> ∅)))
          = inl "/blog/post/") as Hexpand by reflexivity.
  split; [exact Hexpand|].
  destruct (version_zero_is_sent escaping (mock ok_response) tt
              "blog" "post" "" "" "" "" None "" "" "" "" "" None false false
              "/blog/post/" Hexpand)
    as (_ & Hzero & _ & Hunset & _ & _ & Hdiffer).
  split; [exact Hzero|]. split; [exact Hunset|exact Hdiffer].
Defined.

Lemma Do_method_and_path_witness :
  id (@blog_post_42 string) ≠ "" ∧ id (@blog_post string) = "" ∧
  requested (calls (run (mock ok_response) (Do escaping blog_post_42) tt))
  = [("PUT", "/blog/post/42")] ∧
  requested (calls (run (mock ok_response) (Do escaping blog_post) tt))
  = [("POST", "/blog/post/")].
Proof.
  assert (id (@blog_post_42 string) ≠ "") as Hid by discriminate.
  split; [exact Hid|]. split; [reflexivity|]. split.
  - destruct (Do_method_and_path escaping (mock ok_response) tt
                blog_post_42 "blog" "post" eq_refl eq_refl) as [Hput _].
    exact (proj2 (Hput "42" Hid eq_refl)).
  - destruct (Do_method_and_path escaping (mock ok_response) tt
                blog_post "blog" "post" eq_refl eq_refl) as [_ Hpost].
    exact (proj2 (Hpost eq_refl)).
Defined.

Lemma Id_empty_is_unset_witness :
  Id "" (@blog_post string) = blog_post ∧
  requested (calls (run (mock ok_response) (Do escaping (Id "" blog_post_42)) tt))
  = [("POST", "/blog/post/")] ∧
  id (@blog_post_42 string) ≠ "".
Proof.
  destruct (Id_empty_is_unset escaping (mock ok_response) tt
              blog_post "blog" "post") as (_ & _ & _ & Hsame & _ & _).
  destruct (Id_empty_is_unset escaping (mock ok_response) tt
              blog_post_42 "blog" "post") as (_ & _ & _ & _ & Hpost & Hput).
  split; [exact (proj1 (Hsame eq_refl))|].
  split; [exact (Hpost eq_refl eq_refl)|].
  apply (Hput "/blog/post/42"). apply list_elem_of_here.
Defined.

Lemma refresh_only_when_true_witness :
  uritemplates.Expand escaping (target (@blog_post string)).2
    (<["index" := "blog"]> (<["type" := "post"]> (<["id" := ""]> ∅)))
  = inl "/blog/post/" ∧
  requested (calls (run (mock ok_response)
                      (Do escaping (Refresh true blog_post)) tt))
  = [("POST", "/blog/post/?refresh=true")] ∧
  requested (calls (run (mock ok_response)
                      (Do escaping (Refresh false blog_post)) tt))
  = [("POST", "/blog/post/")] ∧
  requested (calls (run (mock ok_response) (Do escaping blog_post) tt))
  = [("POST", "/blog/post/")].
Proof.
  assert (uritemplates.Expand escaping (target (@blog_post string)).2
            (<["index" := "blog"]> (<["type" := "post"]> (<["id" := ""]> ∅)))
          = inl "/blog/post/") as Hexpand by reflexivity.
  split; [exact Hexpand|].
  destruct (refresh_only_when_true escaping (mock ok_response) tt
              "blog" "post" "" "" "" "" None "" "" "" "" "" None false false
              "/blog/post/" Hexpand)
    as (Hany & _ & _ & _ & _ & _ & _).
  split; [exact (Hany (Some true))|].
  split; [exact (Hany (Some false))|exact (Hany None)].
Defined.

Lemma Do_result_or_error_witness :
  HTTPStatusError 404 "missing"
  ∈ omap status_error
      (calls (run (mock missing_response) (Do escaping blog_post_42) tt)) ∧
  result (run (mock missing_response) (Do escaping blog_post_42) tt)
  = (None, Some (HTTPStatusError 404 "missing")) ∧
  existsb is_Decode
    (calls (run (mock missing_response) (Do escaping blog_post_42) tt))
  = false.
Proof.
  assert (HTTPStatusError 404 "missing"
          ∈ omap status_error
              (calls (run (mock missing_response)
                        (Do escaping blog_post_42) tt))) as Hin
    by apply list_elem_of_here.
  split; [exact Hin|].
  destruct (Do_result_or_error escaping (mock missing_response) tt
              blog_post_42) as (_ & Hfail & _).
  exact (Hfail _ Hin).
Defined.

(** The end-to-end scenarios of the specification, on the mock client. *)
Example Do_blog_post_created :
  result (run (mock ok_response) (Do escaping blog_post_42) tt)
  = (Some created_result, None) ∧
  requested (calls (run (mock ok_response) (Do escaping blog_post_42) tt))
  = [("PUT", "/blog/post/42")].
Proof. by vm_compute. Qed.

Example Do_blog_post_missing :
  result (run (mock missing_response) (Do escaping blog_post_42) tt)
  = (None, Some (HTTPStatusError 404 "missing")).
Proof. by vm_compute. Qed.

End IndexServiceSpec.

(** ** More on SearchRequest: the whole header, and how setters compose *)

Module SearchRequestMore.
Import SearchRequest.

Section Descriptor.

Context {Any SearchSource : Type}.
Variable render : SearchSource -> iface Any SearchSource.

Abbreviation SearchRequest := (SearchRequest Any SearchSource).
Implicit Types r : SearchRequest.
Implicit Types m : gmap string HeaderValue.

(** *** The steps of [header] *)

(** What a step does to a key that is not its own. *)
Lemma step_list_other (j1 j2 k : string) (l : list string) m :
  k ≠ j1 → k ≠ j2 →
  match l with
  | [] => m
  | [x] => <[j1 := HString x]> m
  | _ => <[j2 := HStrings l]> m
  end !! k = m !! k.
Proof.
  intros ??. destruct l as [|? [|??]]; by rewrite ?lookup_insert_ne.
Qed.

Lemma step_option_other (j k : string) (o : option string) m :
  k ≠ j →
  match o with
  | Some x => if decide (x ≠ "") then <[j := HString x]> m else m
  | None => m
  end !! k = m !! k.
Proof.
  intros ?. destruct o; [case_decide|]; by rewrite ?lookup_insert_ne.
Qed.

Lemma step_first_other (k st : string) :
  k ≠ "search_type" →
  (if decide (st ≠ "")
   then <["search_type" := HString st]> (∅ : gmap string HeaderValue)
   else ∅) !! k = None.
Proof. intros ?. case_decide; by rewrite ?lookup_insert_ne. Qed.

(** Two maps alike at a key stay alike through a step. *)
Lemma step_list_alike (j1 j2 k : string) (l : list string) m m' :
  m !! k = m' !! k →
  match l with
  | [] => m
  | [x] => <[j1 := HString x]> m
  | _ => <[j2 := HStrings l]> m
  end !! k
  = match l with
    | [] => m'
    | [x] => <[j1 := HString x]> m'
    | _ => <[j2 := HStrings l]> m'
    end !! k.
Proof.
  intros ?. destruct l as [|? [|??]]; [done|..];
    rewrite !lookup_insert; by case_decide.
Qed.

Lemma step_option_alike (j k : string) (o : option string) m m' :
  m !! k = m' !! k →
  match o with
  | Some x => if decide (x ≠ "") then <[j := HString x]> m else m
  | None => m
  end !! k
  = match o with
    | Some x => if decide (x ≠ "") then <[j := HString x]> m' else m'
    | None => m'
    end !! k.
Proof.
  intros ?. destruct o; [case_decide|]; [|done..].
  rewrite !lookup_insert; by case_decide.
Qed.

(** A step adds at most one key. *)
Lemma step_list_size (j1 j2 : string) (l : list string) m :
  (size match l with
        | [] => m
        | [x] => <[j1 := HString x]> m
        | _ => <[j2 := HStrings l]> m
        end ≤ S (size m))%nat.
Proof.
  destruct l as [|? [|??]]; cbv iota; [lia|..]; rewrite map_size_insert;
    case_match; unfold id; lia.
Qed.

Lemma step_option_size (j : string) (o : option string) m :
  (size match o with
        | Some x => if decide (x ≠ "") then <[j := HString x]> m else m
        | None => m
        end ≤ S (size m))%nat.
Proof.
  destruct o; [case_decide|]; cbv iota; [|lia..]. rewrite map_size_insert.
  case_match; unfold id; lia.
Qed.

Ltac open_header :=
  unfold header; cbn [fst searchType indices types routing preference].

Ltac alike :=
  repeat first [ apply step_option_alike | apply step_list_alike ].

Ltac others :=
  repeat first
    [ rewrite (step_option_other "preference") by done
    | rewrite (step_option_other "routing") by done
    | rewrite (step_list_other "types" "type") by done
    | rewrite (step_list_other "index" "indices") by done
    | rewrite step_first_other by done ].

(** *** The scalar entries *)

(** X1: the header has [search_type] exactly when a search type other than
    the empty string was set, and then it holds that string. *)
Theorem header_search_type r :
  (header r).1 !! "search_type"
  = if decide (searchType r = "") then None else Some (HString (searchType r)).
Proof.
  open_header. others.
  repeat case_decide; by rewrite ?lookup_insert_eq.
Qed.

Lemma header_lookup_routing r :
  (header r).1 !! "routing"
  = match routing r with
    | Some ro => if decide (ro = "") then None else Some (HString ro)
    | None => None
    end.
Proof.
  open_header. others.
  destruct (routing r) as [ro|]; repeat case_decide;
    rewrite ?lookup_insert_eq; others; done.
Qed.

Lemma header_lookup_preference r :
  (header r).1 !! "preference"
  = match preference r with
    | Some p => if decide (p = "") then None else Some (HString p)
    | None => None
    end.
Proof.
  open_header.
  destruct (preference r) as [p|]; repeat case_decide;
    rewrite ?lookup_insert_eq; others; done.
Qed.

Lemma length_Join e rest sep :
  String.length (GoStrings.Join (e :: rest) sep)
  = (String.length e
     + sum_list_with (fun s => String.length sep + String.length s) rest)%nat.
Proof.
  unfold GoStrings.Join. revert e.
  induction rest as [|s rest IH]; intros e; cbn [foldl sum_list_with]; [lia|].
  rewrite IH, !GoFacts.length_append. lia.
Qed.

(** Joining with commas gives the empty string for no element and for one
    empty element only. *)
Lemma Join_empty (elems : list string) :
  GoStrings.Join elems "," = "" ↔ elems = [] ∨ elems = [""].
Proof.
  destruct elems as [|e rest]; [naive_solver|]. split.
  - intros Hempty. right. apply (f_equal String.length) in Hempty.
    rewrite length_Join in Hempty.
    destruct rest as [|s rest]; cbn in Hempty; [|lia].
    destruct e; [done|]. cbn in Hempty. lia.
  - intros [?|?]; by simplify_eq.
Qed.

(** X2: [routing] is in the header after [Routing(s)] exactly when [s] is
    not empty; after [Routings(args...)] exactly when the arguments are not
    none and not one empty string, and then it holds them joined by commas;
    [preference] follows the rule of [Routing]; and [Routings(s)] with one
    argument is [Routing(s)]. *)
Theorem header_routing r (s : string) (args : list string) :
  (header (Routing s r)).1 !! "routing"
  = (if decide (s = "") then None else Some (HString s)) ∧
  (header (Routings (variadic args) r)).1 !! "routing"
  = (if decide (args = [] ∨ args = [""]) then None
     else Some (HString (GoStrings.Join args ","))) ∧
  (header (Preference s r)).1 !! "preference"
  = (if decide (s = "") then None else Some (HString s)) ∧
  Routings (variadic [s]) r = Routing s r.
Proof.
  rewrite !header_lookup_routing, header_lookup_preference.
  split_and!; try by destruct r.
  destruct r; cbn [Routings routing].
  destruct args as [|a args]; cbn [variadic routing];
    [by rewrite decide_True by auto|].
  destruct (decide (a :: args = [] ∨ a :: args = [""])) as [Hs|Hs].
  - rewrite decide_True; [done|]. by apply Join_empty.
  - rewrite decide_False; [done|]. by rewrite Join_empty.
Qed.

(** *** The keys of a header *)

(** X3: a header has no key besides [search_type], [index], [indices],
    [types], [type], [routing] and [preference], and at most five entries. *)
Theorem header_keys r (k : string) :
  (k ∉ ["search_type"; "index"; "indices"; "types"; "type"; "routing";
        "preference"] →
   (header r).1 !! k = None) ∧
  (size (header r).1 ≤ 5)%nat.
Proof.
  split.
  - rewrite !not_elem_of_cons. intros (? & ? & ? & ? & ? & ? & ? & _).
    open_header. by others.
  - open_header.
    etrans; [apply step_option_size|]. apply le_n_S.
    etrans; [apply step_option_size|]. apply le_n_S.
    etrans; [apply (step_list_size "types" "type")|]. apply le_n_S.
    etrans; [apply (step_list_size "index" "indices")|]. apply le_n_S.
    case_decide; [|by rewrite map_size_empty; lia].
    rewrite map_size_insert, lookup_empty, map_size_empty. lia.
Qed.

(** X6: [HasIndices] says whether the header will name an index: it is
    true exactly when the header has [index] or [indices]. *)
Theorem HasIndices_header r :
  HasIndices r = true
  ↔ is_Some ((header r).1 !! "index") ∨ is_Some ((header r).1 !! "indices").
Proof.
  unfold HasIndices. rewrite bool_decide_eq_true.
  open_header. others.
  destruct (indices r) as [|i0 [|i1 il]]; cbn [List.length].
  - others. split; [lia|]. by intros [[? ?]|[? ?]].
  - rewrite lookup_insert_eq. split; [eauto|lia].
  - rewrite lookup_insert_eq. split; [eauto|lia].
Qed.

(** *** Setters, one after the other *)

(** X4: adding several indices at once is adding them one by one, in
    their order; the same for types. *)
Theorem Indices_one_by_one r (l : list string) :
  Indices l r = foldl (fun r i => Index i r) r l ∧
  Types l r = foldl (fun r t => Type_ t r) r l.
Proof.
  split; revert r; induction l as [|x l IH]; intros r; cbn [foldl].
  - destruct r; cbn. by rewrite app_nil_r.
  - rewrite <-IH. destruct r; cbn. by rewrite <-app_assoc.
  - destruct r; cbn. by rewrite app_nil_r.
  - rewrite <-IH. destruct r; cbn. by rewrite <-app_assoc.
Qed.

(** Two descriptors that differ in one field have headers alike at every
    key that field does not decide. *)
Lemma header_other_searchType st st' i t ro p (src src' : iface Any SearchSource) k :
  k ≠ "search_type" →
  (header (MkSearchRequest st i t ro p src)).1 !! k
  = (header (MkSearchRequest st' i t ro p src')).1 !! k.
Proof.
  intros ?. open_header. alike.
  repeat case_decide; by rewrite ?lookup_insert_ne.
Qed.

Lemma header_other_indices st i i' t ro p (src : iface Any SearchSource) k :
  k ≠ "index" → k ≠ "indices" →
  (header (MkSearchRequest st i t ro p src)).1 !! k
  = (header (MkSearchRequest st i' t ro p src)).1 !! k.
Proof.
  intros ??. open_header. alike.
  by rewrite !(step_list_other "index" "indices") by done.
Qed.

Lemma header_other_types st i t t' ro p (src : iface Any SearchSource) k :
  k ≠ "types" → k ≠ "type" →
  (header (MkSearchRequest st i t ro p src)).1 !! k
  = (header (MkSearchRequest st i t' ro p src)).1 !! k.
Proof.
  intros ??. open_header. alike.
  by rewrite !(step_list_other "types" "type") by done.
Qed.

Lemma header_other_routing st i t ro ro' p (src : iface Any SearchSource) k :
  k ≠ "routing" →
  (header (MkSearchRequest st i t ro p src)).1 !! k
  = (header (MkSearchRequest st i t ro' p src)).1 !! k.
Proof.
  intros ?. open_header. alike.
  by rewrite !(step_option_other "routing") by done.
Qed.

Lemma header_other_preference st i t ro p p' (src : iface Any SearchSource) k :
  k ≠ "preference" →
  (header (MkSearchRequest st i t ro p src)).1 !! k
  = (header (MkSearchRequest st i t ro p' src)).1 !! k.
Proof.
  intros ?. open_header.
  by rewrite !(step_option_other "preference") by done.
Qed.

(** X5: a setter changes the header at its own keys only: every other key
    holds after the call what it held before, and [Source] changes nothing in
    the header. *)
Theorem setters_keep_other_keys r (k : string) :
  (∀ st, k ≠ "search_type" →
     (header (SearchType st r)).1 !! k = (header r).1 !! k) ∧
  (∀ l, k ≠ "index" → k ≠ "indices" →
     (header (Indices l r)).1 !! k = (header r).1 !! k) ∧
  (∀ l, k ≠ "types" → k ≠ "type" →
     (header (Types l r)).1 !! k = (header r).1 !! k) ∧
  (∀ args, k ≠ "routing" →
     (header (Routings args r)).1 !! k = (header r).1 !! k) ∧
  (∀ p, k ≠ "preference" →
     (header (Preference p r)).1 !! k = (header r).1 !! k) ∧
  (∀ x, (header (Source render x r)).1 = (header r).1).
Proof.
  destruct r as [st i t ro p src]. split_and!.
  - intros. by apply header_other_searchType.
  - intros. by apply header_other_indices.
  - intros. by apply header_other_types.
  - intros [args|] ?; by apply header_other_routing.
  - intros. by apply header_other_preference.
  - by intros [].
Qed.

(** X7: [body] returns what the last [Source] stored: the rendering of a
    [*SearchSource], any other value as it is; an earlier [Source] leaves no
    trace. *)
Theorem Source_then_body r (x : iface Any SearchSource) :
  (body (Source render x r)).1
  = match x with
    | SearchSourcePtr v => render v
    | _ => x
    end ∧
  (∀ y, (body (Source render y (Source render x r))).1
        = (body (Source render y r)).1).
Proof.
  destruct r. split; [by destruct x|]. intros y. by destruct x, y.
Qed.

End Descriptor.

(** *** On sample descriptors *)

Lemma header_keys_witness :
  ("size" ∉ ["search_type"; "index"; "indices"; "types"; "type"; "routing";
             "preference"]) ∧
  (header (Index "blog" (@NewSearchRequest unit unit))).1 !! "size" = None.
Proof.
  assert ("size" ∉ ["search_type"; "index"; "indices"; "types"; "type";
                    "routing"; "preference"]) as Hkey
    by by apply (bool_decide_unpack _).
  split; [exact Hkey|].
  exact (proj1 (header_keys (Index "blog" (@NewSearchRequest unit unit))
                  "size") Hkey).
Defined.

Lemma HasIndices_header_witness :
  HasIndices (Index "blog" (@NewSearchRequest unit unit)) = true ∧
  (is_Some ((header (Index "blog" (@NewSearchRequest unit unit))).1 !! "index")
   ∨ is_Some
       ((header (Index "blog" (@NewSearchRequest unit unit))).1 !! "indices")).
Proof.
  split; [reflexivity|].
  exact (proj1 (HasIndices_header (Index "blog" (@NewSearchRequest unit unit)))
           eq_refl).
Defined.

Lemma setters_keep_other_keys_witness :
  "index" ≠ "routing" ∧
  (header (Routing "r" (Index "blog" (@NewSearchRequest unit unit)))).1
    !! "index"
  = Some (HString "blog").
Proof.
  assert ("index" ≠ "routing") as Hkey by discriminate.
  split; [exact Hkey|].
  destruct (setters_keep_other_keys (fun _ : unit => Nil)
              (Index "blog" (@NewSearchRequest unit unit)) "index")
    as (_ & _ & _ & Hrouting & _).
  exact (Hrouting (Some ["r"]) Hkey).
Defined.

End SearchRequestMore.

(** ** More on IndexService: the calls of [Do], and its parameters *)

Module IndexServiceMore.
Import IndexService GoFacts IndexServiceSpec.

Section Service.

Context {Json Request Response : Type}.

Abbreviation IndexService := (IndexService Json).
Implicit Types b : IndexService.

(** *** The parameters *)

(** Among candidates with distinct keys, a parameter with a value is in
    the map of those present, with that one value; a parameter without a
    value is not. *)
Lemma lookup_present (c : list (string * option string)) k o :
  NoDup c.*1 → (k, o) ∈ c →
  (list_to_map (url.singly <$> present c) : url.Values) !! k
  = (fun v => [v]) <$> o.
Proof.
  intros Hkeys Hin.
  assert (NoDup (url.singly <$> present c).*1) as Hpresent.
  { rewrite singly_keys. eapply sublist_NoDup; [done|].
    apply present_keys_sublist. }
  destruct o as [v|]; cbn [fmap option_fmap option_map].
  - apply elem_of_list_to_map_1; [done|].
    apply (list_elem_of_fmap_2 url.singly _ (k, v)).
    apply list_elem_of_omap. by exists (k, Some v).
  - apply not_elem_of_list_to_map_1. rewrite singly_keys.
    intros ([k' v] & -> & Hv)%list_elem_of_fmap.
    apply list_elem_of_omap in Hv as ([k'' [v'|]] & Hc & Hsome);
      simplify_eq/=.
    pose proof (elem_of_list_to_map_1 _ _ _ Hkeys Hin) as Hnone.
    pose proof (elem_of_list_to_map_1 _ _ _ Hkeys Hc) as Hsome.
    congruence.
Qed.

Lemma params_lookup b (k : string) (o : option string) :
  (k, o) ∈ candidates b →
  params b !! k = (fun v => [v]) <$> o.
Proof.
  intros Hin. rewrite params_emitted. apply lookup_present; [|done].
  rewrite candidates_keys. by apply (bool_decide_unpack _).
Qed.

Ltac candidate :=
  unfold candidates; rewrite !elem_of_cons; tauto.

(** X8: each string parameter is in the parameters exactly when its field
    is not the empty string, with the field as its one value; [pretty] is
    there exactly when the flag is set. An empty string is no value. *)
Theorem params_of_strings b :
  params b !! "routing"
  = (if decide (routing b = "") then None else Some [routing b]) ∧
  params b !! "parent"
  = (if decide (parent b = "") then None else Some [parent b]) ∧
  params b !! "op_type"
  = (if decide (opType b = "") then None else Some [opType b]) ∧
  params b !! "version_type"
  = (if decide (versionType b = "") then None else Some [versionType b]) ∧
  params b !! "timestamp"
  = (if decide (timestamp b = "") then None else Some [timestamp b]) ∧
  params b !! "ttl"
  = (if decide (ttl b = "") then None else Some [ttl b]) ∧
  params b !! "timeout"
  = (if decide (timeout b = "") then None else Some [timeout b]) ∧
  params b !! "pretty" = (if pretty b then Some ["true"] else None).
Proof.
  split_and!.
  - rewrite (params_lookup b "routing" (nonempty (routing b))) by candidate.
    unfold nonempty. by repeat case_decide.
  - rewrite (params_lookup b "parent" (nonempty (parent b))) by candidate.
    unfold nonempty. by repeat case_decide.
  - rewrite (params_lookup b "op_type" (nonempty (opType b))) by candidate.
    unfold nonempty. by repeat case_decide.
  - rewrite (params_lookup b "version_type" (nonempty (versionType b)))
      by candidate.
    unfold nonempty. by repeat case_decide.
  - rewrite (params_lookup b "timestamp" (nonempty (timestamp b)))
      by candidate.
    unfold nonempty. by repeat case_decide.
  - rewrite (params_lookup b "ttl" (nonempty (ttl b))) by candidate.
    unfold nonempty. by repeat case_decide.
  - rewrite (params_lookup b "timeout" (nonempty (timeout b))) by candidate.
    unfold nonempty. by repeat case_decide.
  - rewrite (params_lookup b "pretty" (if pretty b then Some "true" else None))
      by candidate.
    by destruct (pretty b).
Qed.

(** X9: whatever the parameters hold is one of the ten keys of [Do], and
    holds exactly one value. *)
Theorem params_single_valued b (k : string) (vs : list string) :
  params b !! k = Some vs →
  k ∈ ["op_type"; "parent"; "pretty"; "refresh"; "routing"; "timeout";
       "timestamp"; "ttl"; "version"; "version_type"] ∧
  ∃ v, vs = [v].
Proof.
  rewrite params_emitted. intros Hk.
  apply elem_of_list_to_map_2, list_elem_of_fmap in Hk as ([k' v] & Heq & Hin).
  unfold url.singly in Heq. simplify_eq/=. split; [|by eexists].
  rewrite <-(candidates_keys b).
  eapply sublist_subseteq; [apply present_keys_sublist|].
  by apply (list_elem_of_fmap_2 fst (emitted b) (k', v)).
Qed.

(** *** The bytes of the query string *)

Lemma hexdigit_unreserved n : url.shouldEscape (url.hexdigit n) = false.
Proof.
  unfold url.hexdigit.
  generalize (N.to_nat n). intros k.
  do 16 (destruct k as [|k]; [reflexivity|]). reflexivity.
Qed.

(** [QueryEscape] writes escaped bytes only. *)
Lemma QueryEscape_bytes (s : string) :
  Forall (fun c => url.escaped_byte c = true)
    (list_ascii_of_string (url.QueryEscape s)).
Proof.
  induction s as [|c s IH]; [constructor|]. cbn [url.QueryEscape].
  destruct (url.shouldEscape c) eqn:Hc.
  - destruct (Ascii.eqb c " "); cbn [list_ascii_of_string];
      repeat (constructor; [|]); try done;
      unfold url.escaped_byte; by rewrite hexdigit_unreserved.
  - cbn [list_ascii_of_string]. constructor; [|done].
    unfold url.escaped_byte. by rewrite Hc.
Qed.

(** The bytes [QueryEscape] writes are none of the marks of a URL. *)
Lemma escaped_byte_no_mark c :
  url.escaped_byte c = true →
  c ∉ ["&"; "="; "?"; "#"; "/"; " "; ":"; "@"]%char.
Proof.
  intros Hc Hin. rewrite !elem_of_cons, elem_of_nil in Hin.
  destruct Hin as [->|[->|[->|[->|[->|[->|[->|[->|[]]]]]]]]]; discriminate Hc.
Qed.

(** *** The version on the wire *)

Lemma QueryEscape_uint d :
  url.QueryEscape (NilEmpty.string_of_uint d) = NilEmpty.string_of_uint d.
Proof. induction d; cbn; by rewrite ?IHd. Qed.

Lemma QueryEscape_Sprintf_d v :
  url.QueryEscape (fmt.Sprintf_d v) = fmt.Sprintf_d v.
Proof.
  unfold fmt.Sprintf_d, NilZero.string_of_int, NilZero.string_of_uint.
  destruct (Z.to_int v) as [d|d]; destruct d; cbn; try done;
    by rewrite QueryEscape_uint.
Qed.

Lemma Sprintf_d_reads_back v :
  Z.of_int <$> NilZero.int_of_string (fmt.Sprintf_d v) = Some v.
Proof.
  unfold fmt.Sprintf_d. rewrite NilZero.isi.
  - cbn. f_equal. apply DecimalZ.of_to.
  - destruct v; cbn; try done. intros [= H]. by apply Unsigned.to_uint_nonnil in H.
  - destruct v; cbn; try done. intros [= H]. by apply Unsigned.to_uint_nonnil in H.
Qed.

(** *** The calls of a run *)

Variable pctEncode : string -> option string.

Abbreviation vars b :=
  (<["index" := index b]> (<["type" := _type b]> (<["id" := id b]> ∅))
   : gmap string string).

Section Run.

Context {W : Type} (h : handler Json Request Response W) (w : W).

Ltac answer :=
  cbn [run bind call when calls result final];
  match goal with
  | |- context [h ?X ?e ?w'] => destruct (h X e w') as [? ?]
  end.

(** Every way a run of [Do] can go, one goal for each. *)
Ltac all_runs b :=
  unfold Do, script, chosen_body;
  destruct (target b) as [method template];
  destruct (uritemplates.Expand pctEncode template (vars b)) as [path|err'];
  destruct (bodyJson b), (debug b);
  repeat (answer; repeat case_match; simplify_eq);
  cbn [run bind call when calls result final].

(** X13: the calls of a run are the beginning of one fixed sequence: the
    request is created, its body set, the request sent, the status checked,
    the response decoded and closed, with the two dumps in their places when
    [debug] is set; and the run goes through the whole sequence exactly when
    the status check passes. *)
Theorem Do_call_order b :
  let r := run h (Do pctEncode b) w in
  (kind <$> calls r) `prefix_of` script b ∧
  (passed (calls r) ≠ [] ↔ (kind <$> calls r) = script b).
Proof.
  all_runs b; cbn; (split; [|split; [done|try done]]);
    try (by eexists); by apply prefix_nil.
Qed.

(** X14: without [debug] nothing is dumped; with it, a request that is
    sent has been dumped, and a response that is decoded has been dumped. *)
Theorem Do_dumps_with_debug b :
  let r := run h (Do pctEncode b) w in
  (debug b = false →
     (KDumpRequest ∉ kind <$> calls r) ∧ (KDumpResponse ∉ kind <$> calls r)) ∧
  (debug b = true →
     (KHttpDo ∈ kind <$> calls r → KDumpRequest ∈ kind <$> calls r) ∧
     (KDecode ∈ kind <$> calls r → KDumpResponse ∈ kind <$> calls r)).
Proof.
  all_runs b; cbn; by apply (bool_decide_unpack _).
Qed.

(** X12: every request created gets exactly one body: the JSON value when
    one was given, whatever the string body is, and the string body
    otherwise, which is the empty string when none was set. *)
Theorem Do_body_selection b :
  let r := run h (Do pctEncode b) w in
  bodies (calls r) = (fun req => (req, chosen_body b)) <$> created (calls r).
Proof. all_runs b; reflexivity. Qed.

(** X15: the requests sent are the requests [NewRequest] returned, and
    there is at most one: nothing is sent when [NewRequest] fails, and
    nothing else is ever sent. *)
Theorem Do_sends_what_it_created b :
  let r := run h (Do pctEncode b) w in
  sent (calls r) = created (calls r) ∧ (List.length (created (calls r)) ≤ 1)%nat.
Proof. all_runs b; cbn; split; (done || lia). Qed.

(** X16: [Do] stops at the first failure and returns its error as it got
    it: when the path does not expand no call is made; otherwise the failures
    among the answers are the returned error alone, and there is none when
    [Do] returns a result. *)
Theorem Do_stops_at_first_failure b :
  let r := run h (Do pctEncode b) w in
  match uritemplates.Expand pctEncode (target b).2 (vars b) with
  | inr err => calls r = [] ∧ result r = (None, Some err)
  | inl _ => omap failure (calls r) = option_list (result r).2
  end.
Proof.
  unfold Do. destruct (target b) as [method template]. cbn [snd].
  destruct (uritemplates.Expand pctEncode template (vars b)) as [path|err'];
    [|done].
  destruct (bodyJson b), (debug b);
    repeat (answer; repeat case_match; simplify_eq);
    cbn [run bind call when calls result final]; reflexivity.
Qed.

(** X17: the response bodies closed are those whose status check passed,
    whether decoding then succeeds or not; after a failed status check the
    body is not closed. *)
Theorem Do_closes_checked_bodies b :
  let r := run h (Do pctEncode b) w in
  closed (calls r) = passed (calls r) ∧
  (omap status_error (calls r) ≠ [] → closed (calls r) = []).
Proof. all_runs b; cbn; split; done. Qed.

Lemma target_Version b v : target (Version v b) = target b.
Proof. by destruct b. Qed.

Lemma vars_Version b v : vars (Version v b) = vars b.
Proof. by destruct b. Qed.

(** X10: the query string of the URL [Do] requests is [?] and then the
    parameters, [key=value] each and [&] between two, where every key and
    every value is written by [QueryEscape] from a parameter [Do] set, and
    holds letters, digits, the marks [-_.~], [%] and [+] only: whatever a
    field holds, no [&], [=], [?], [#], [/] or space of its own gets into
    the query string. *)
Theorem Do_query_escaped b path :
  uritemplates.Expand pctEncode (target b).2 (vars b) = inl path →
  let written :=
    (fun kv => (url.QueryEscape kv.1, url.QueryEscape kv.2)) <$> emitted b in
  requested (calls (run h (Do pctEncode b) w))
  = [((target b).1,
      path +:+ match written with
               | [] => ""
               | _ :: _ =>
                   "?" +:+ GoStrings.Join
                             ((fun kv => kv.1 +:+ "=" +:+ kv.2) <$> written) "&"
               end)] ∧
  Forall (fun kv =>
            Forall (fun c => url.escaped_byte c = true)
              (list_ascii_of_string kv.1) ∧
            Forall (fun c => url.escaped_byte c = true)
              (list_ascii_of_string kv.2)) written ∧
  (∀ c, url.escaped_byte c = true →
        c ∉ ["&"; "="; "?"; "#"; "/"; " "; ":"; "@"]%char).
Proof.
  intros Hexpand written. split_and!.
  - rewrite (Do_requested pctEncode h w b path Hexpand), query_emitted.
    unfold written, query_of, url.encoded.
    destruct (emitted b) as [|kv l]; [done|].
    cbn [fmap list_fmap]. do 4 f_equal.
    change (map url.component (kv :: l)) with (url.component <$> kv :: l).
    by rewrite <-list_fmap_compose.
  - unfold written. apply Forall_fmap, Forall_forall. intros kv _. cbn.
    split; apply QueryEscape_bytes.
  - apply escaped_byte_no_mark.
Qed.

(** X11: after [Version(v)], for any [v], the parameters hold [version]
    with the decimal text of [v], minus sign included; the URL of the request
    [Do] creates has [version=] and that text, as it is, as one of its
    parameters; and the text reads back as [v]. *)
Theorem version_text b (v : Z) path :
  uritemplates.Expand pctEncode (target b).2 (vars b) = inl path →
  params (Version v b) !! "version" = Some [fmt.Sprintf_d v] ∧
  (∃ before after,
     requested (calls (run h (Do pctEncode (Version v b)) w))
     = [((target b).1,
         path +:+ "?"
         +:+ GoStrings.Join
               (before ++ ("version=" +:+ fmt.Sprintf_d v) :: after) "&")]) ∧
  Z.of_int <$> NilZero.int_of_string (fmt.Sprintf_d v) = Some v.
Proof.
  intros Hexpand. split_and!.
  - rewrite params_version. by destruct b.
  - assert (emitted (Version v b)
            = present (take 8 (candidates (Version v b)))
              ++ ("version", fmt.Sprintf_d v)
                 :: present [("version_type",
                              nonempty (versionType (Version v b)))])
      as Hversion.
    { rewrite (emitted_version (Version v b)). by destruct b. }
    exists (map url.component (present (take 8 (candidates (Version v b))))),
      (map url.component
         (present [("version_type", nonempty (versionType (Version v b)))])).
    rewrite (Do_requested pctEncode h w (Version v b) path)
      by by rewrite target_Version, vars_Version.
    rewrite target_Version, query_emitted, Hversion.
    unfold query_of, url.encoded. rewrite map_app. cbn [map].
    assert (url.component ("version", fmt.Sprintf_d v)
            = "version=" +:+ fmt.Sprintf_d v) as ->.
    { unfold url.component. cbn [fst snd]. by rewrite QueryEscape_Sprintf_d. }
    by destruct (present (take 8 (candidates (Version v b)))).
  - apply Sprintf_d_reads_back.
Qed.

End Run.

(** X18: the method and the URL of the request do not depend on the
    client, nor on the body or on [debug]. *)
Theorem Do_request_before_client b {W W' : Type}
    (h : handler Json Request Response W) (w : W)
    (h' : handler Json Request Response W') (w' : W')
    (body : string) (json : option Json) (debug' : bool) :
  requested (calls (run h (Do pctEncode b) w))
  = requested (calls (run h' (Do pctEncode b) w')) ∧
  requested (calls (run h (Do pctEncode
                             (Debug debug' (BodyJson json (BodyString body b))))
                      w))
  = requested (calls (run h (Do pctEncode b) w)).
Proof.
  assert (∀ b',
    target b' = target b → vars b' = vars b → query b' = query b →
    ∀ V (g : handler Json Request Response V) v,
      requested (calls (run g (Do pctEncode b') v))
      = requested (calls (run h (Do pctEncode b) w))) as Hsame.
  { intros b' Htarget Hvars Hquery V g v.
    destruct (uritemplates.Expand pctEncode (target b).2 (vars b))
      as [path|err] eqn:Hexpand.
    - rewrite (Do_requested pctEncode h w b path Hexpand).
      rewrite (Do_requested pctEncode g v b' path)
        by by rewrite Htarget, Hvars.
      by rewrite Htarget, Hquery.
    - rewrite (Do_expand_error pctEncode h w b err Hexpand).
      by rewrite (Do_expand_error pctEncode g v b' err)
        by by rewrite Htarget, Hvars. }
  split.
  - symmetry. by apply Hsame.
  - apply Hsame; by destruct b.
Qed.

End Service.

(** *** On the sample builders *)

Lemma params_single_valued_witness :
  params (@routed_child string) !! "parent" = Some ["p"] ∧
  "parent" ∈ ["op_type"; "parent"; "pretty"; "refresh"; "routing"; "timeout";
              "timestamp"; "ttl"; "version"; "version_type"].
Proof.
  assert (params (@routed_child string) !! "parent" = Some ["p"]) as Hparent
    by reflexivity.
  split; [exact Hparent|].
  exact (proj1 (params_single_valued routed_child "parent" ["p"] Hparent)).
Defined.

Lemma Do_call_order_witness :
  passed (calls (run (mock ok_response) (Do escaping blog_post_42) tt)) ≠ [] ∧
  kind <$> calls (run (mock ok_response) (Do escaping blog_post_42) tt)
  = [KNewRequest; KSetBody; KHttpDo; KCheckResponse; KDecode; KBodyClose].
Proof.
  assert (passed (calls (run (mock ok_response) (Do escaping blog_post_42) tt))
          ≠ []) as Hpassed by discriminate.
  split; [exact Hpassed|].
  destruct (Do_call_order escaping (mock ok_response) tt blog_post_42)
    as [_ Hwhole].
  exact (proj1 Hwhole Hpassed).
Defined.

Lemma Do_dumps_with_debug_witness :
  debug (Debug true (@blog_post_42 string)) = true ∧
  KDumpRequest
  ∈ kind <$> calls (run (mock ok_response)
                      (Do escaping (Debug true blog_post_42)) tt) ∧
  debug (@blog_post_42 string) = false ∧
  KDumpRequest
  ∉ kind <$> calls (run (mock ok_response) (Do escaping blog_post_42) tt).
Proof.
  destruct (Do_dumps_with_debug escaping (mock ok_response) tt
              (Debug true blog_post_42)) as [_ Hon].
  destruct (Do_dumps_with_debug escaping (mock ok_response) tt blog_post_42)
    as [Hoff _].
  split; [reflexivity|]. split.
  - apply (proj1 (Hon eq_refl)). by apply (bool_decide_unpack _).
  - split; [reflexivity|]. exact (proj1 (Hoff eq_refl)).
Defined.

Lemma Do_closes_checked_bodies_witness :
  omap status_error
    (calls (run (mock missing_response) (Do escaping blog_post_42) tt)) ≠ [] ∧
  closed (calls (run (mock missing_response) (Do escaping blog_post_42) tt))
  = [].
Proof.
  assert (omap status_error
            (calls (run (mock missing_response) (Do escaping blog_post_42) tt))
          ≠ []) as Hfailed by discriminate.
  split; [exact Hfailed|].
  exact (proj2 (Do_closes_checked_bodies escaping (mock missing_response) tt
                  blog_post_42) Hfailed).
Defined.

Lemma Do_query_escaped_witness :
  uritemplates.Expand escaping
    (target (Routing "a b&c" (@blog_post string))).2
    (<["index" := "blog"]> (<["type" := "post"]> (<["id" := ""]> ∅)))
  = inl "/blog/post/" ∧
  requested (calls (run (mock ok_response)
                      (Do escaping (Routing "a b&c" blog_post)) tt))
  = [("POST", "/blog/post/?routing=a+b%26c")].
Proof.
  assert (uritemplates.Expand escaping
            (target (Routing "a b&c" (@blog_post string))).2
            (<["index" := "blog"]> (<["type" := "post"]> (<["id" := ""]> ∅)))
          = inl "/blog/post/") as Hexpand by reflexivity.
  split; [exact Hexpand|].
  exact (proj1 (Do_query_escaped escaping (mock ok_response) tt
                  (Routing "a b&c" blog_post) "/blog/post/" Hexpand)).
Defined.

Lemma version_text_witness :
  uritemplates.Expand escaping (target (@blog_post string)).2
    (<["index" := "blog"]> (<["type" := "post"]> (<["id" := ""]> ∅)))
  = inl "/blog/post/" ∧
  params (Version (-7) (@blog_post string)) !! "version" = Some ["-7"] ∧
  Z.of_int <$> NilZero.int_of_string (fmt.Sprintf_d (-7)) = Some (-7)%Z.
Proof.
  assert (uritemplates.Expand escaping (target (@blog_post string)).2
            (<["index" := "blog"]> (<["type" := "post"]> (<["id" := ""]> ∅)))
          = inl "/blog/post/") as Hexpand by reflexivity.
  split; [exact Hexpand|].
  destruct (version_text escaping (mock ok_response) tt blog_post (-7)
              "/blog/post/" Hexpand) as (Hparams & _ & Hback).
  split; [exact Hparams|exact Hback].
Defined.

End IndexServiceMore.
